(** * The sexlang bytecode virtual machine (package [vm], file vm/vm.go)

    A shallow embedding of the stack machine of vm/vm.go and the proofs of
    its operator, stack and error behaviour.

    Conventions of the embedding.
    - Go's [int] fields ([sp], the loop counter [ip]) are [Z]; they stay far
      inside the 64-bit range (between -1 and the length of a slice plus
      two), so no wrap-around is written for them.  [int64] values of
      [object.Integer] are [Z] with the wrap-around of every arithmetic
      operation written out ([wrap64]).
    - A byte is a [Z] in [0, 256).
    - An [object.Object] is an interface value: either the nil interface
      (the zero value of a stack slot) or a non-nil pointer to an object.
      Objects are never mutated by the machine, so a pointer carries the
      address (its identity) together with the data it points to.
    - A method of [*VM] is a function from the machine to an [Outcome]:
      it returns a value and the updated machine, or it panics (index out
      of range, nil dereference, failed type assertion, division by zero).
    - Go's [error] is [option string]: [None] is [nil], [Some m] is the
      error built by [fmt.Errorf] with message [m]. *)

From Stdlib Require Import ZArith String Bool Lia DecimalString.
From stdpp Require Import base list.

Local Open Scope Z_scope.

(** ** Imported packages

    The packages [code] and [object] are imported by vm.go; only the names
    the machine uses are needed.  Their values are parameters. *)

Definition byte := Z.

(** [type Opcode byte] of package [code]. *)
Definition Opcode := Z.

(** [type ObjectType string] of package [object]. *)
Definition ObjectType := string.

(** The opcode constants of package [code] that vm.go mentions. *)
Class CodePkg := {
  OpConstant : Opcode;
  OpAdd : Opcode;
  OpSub : Opcode;
  OpMul : Opcode;
  OpDiv : Opcode;
  OpPop : Opcode;
  OpTrue : Opcode;
  OpFalse : Opcode;
  OpEqual : Opcode;
  OpNotEqual : Opcode;
  OpGreaterThan : Opcode;
  OpBang : Opcode;
  OpMinus : Opcode
}.

(** The kind constants of package [object] that vm.go mentions. *)
Class ObjectPkg := {
  INTEGER_OBJ : ObjectType;
  BOOLEAN_OBJ : ObjectType
}.

(** The cases of one Go [switch] over constants are pairwise different
    (the Go compiler rejects duplicate constant cases). *)
Definition opcodes_of (c : CodePkg) : list Opcode :=
  [OpConstant; OpAdd; OpSub; OpMul; OpDiv; OpPop; OpTrue; OpFalse;
   OpEqual; OpNotEqual; OpGreaterThan; OpBang; OpMinus].

Definition distinct_opcodes (c : CodePkg) : Prop :=
  NoDup (opcodes_of c).

(** Modelled from the spec: [code.ReadUint16] is not among the sources; the
    operand of an opcode is "fixed-width big-endian operand bytes (only
    operand width used here is a 2-byte unsigned integer)".  Reading from a
    slice of fewer than two bytes is an index out of range. *)
Definition ReadUint16 (ins : list byte) : option Z :=
  match ins with
  | b0 :: b1 :: _ => Some (Z.lor b1 (Z.shiftl b0 8))
  | _ => None
  end.

(** ** Runtime values *)

Definition addr := N.

Inductive Data : Type :=
| Integer (Value : Z)           (* object.Integer{Value int64} *)
| Boolean (Value : bool)        (* object.Boolean{Value bool} *)
| Foreign (kind : ObjectType).  (* any other implementation of Object *)

Inductive Object : Type :=
| Nil                           (* the nil interface value *)
| Ptr (a : addr) (d : Data).    (* a non-nil pointer to an object *)

(** The method [Type()] of an object. *)
Definition Type_ `{ObjectPkg} (d : Data) : ObjectType :=
  match d with
  | Integer _ => INTEGER_OBJ
  | Boolean _ => BOOLEAN_OBJ
  | Foreign k => k
  end.

Definition same_dynamic_type (d d' : Data) : bool :=
  match d, d' with
  | Integer _, Integer _ => true
  | Boolean _, Boolean _ => true
  | Foreign k, Foreign k' => String.eqb k k'
  | _, _ => false
  end.

(** Go's [==] on two interface values holding pointers: both nil, or the
    same dynamic type and the same pointer. *)
Definition iface_eq (x y : Object) : bool :=
  match x, y with
  | Nil, Nil => true
  | Ptr a d, Ptr a' d' => same_dynamic_type d d' && N.eqb a a'
  | _, _ => false
  end.

(** [const StackSize = 2048] *)
Definition StackSize : Z := 2048.

(** [var True = &object.Boolean{Value: true}] and
    [var False = &object.Boolean{Value: false}]: two objects allocated once,
    when the package is initialised.  (Named [vm_True], [vm_False] here,
    [True] and [False] being the propositions of the logic.) *)
Definition vm_True : Object := Ptr 0%N (Boolean true).
Definition vm_False : Object := Ptr 1%N (Boolean false).

(** [type VM struct].  The field [heap] is not a field of the Go struct: it
    is the allocator's frontier, the address the next [&object.Integer{..}]
    receives. *)
Record VM : Type := mkVM {
  contants : list Object;
  instructions : list byte;
  stack : list Object;
  sp : Z;
  heap : addr
}.

Record Bytecode : Type := mkBytecode {
  Instructions : list byte;
  Constants : list Object
}.

(** [func New(bytecode *compiler.Bytecode) *VM]; [make] fills the stack with
    nil interfaces. *)
Definition New (bytecode : Bytecode) (heap0 : addr) : VM :=
  {| contants := Constants bytecode;
     instructions := Instructions bytecode;
     stack := replicate (Z.to_nat StackSize) Nil;
     sp := 0;
     heap := heap0 |}.

(** ** Outcomes of a method call *)

Inductive Panic : Type :=
| IndexOutOfRange
| NilDereference
| InterfaceConversion
| IntegerDivideByZero.

Inductive Outcome (A : Type) : Type :=
| Returns (a : A) (vm : VM)
| Panics (p : Panic).
Arguments Returns {A} a vm.
Arguments Panics {A} p.

Definition M (A : Type) : Type := VM -> Outcome A.

Definition ret {A} (a : A) : M A := fun vm => Returns a vm.

Definition bind {A B} (m : M A) (k : A -> M B) : M B :=
  fun vm =>
    match m vm with
    | Returns a vm' => k a vm'
    | Panics p => Panics p
    end.

Definition panic {A} (p : Panic) : M A := fun _ => Panics p.

(** Reading a field of the machine. *)
Definition gets {A} (f : VM -> A) : M A := fun vm => Returns (f vm) vm.

Notation "x <- m ;; k" := (bind m (fun x => k))
  (at level 100, m at next level, right associativity).

(** A partial read that panics with [p] where Go would. *)
Definition orPanic {A} (p : Panic) (o : option A) : M A :=
  match o with
  | Some a => ret a
  | None => panic p
  end.

Definition error := option string.

(** [s[i]] on a slice: [None] where Go panics with index out of range. *)
Definition index {A} (s : list A) (i : Z) : option A :=
  if decide (0 <= i < Z.of_nat (length s)) then s !! Z.to_nat i else None.

(** [s[i:]] on a slice: [None] where Go panics with slice bounds out of
    range. *)
Definition slice_from {A} (s : list A) (i : Z) : option (list A) :=
  if decide (0 <= i <= Z.of_nat (length s)) then Some (drop (Z.to_nat i) s)
  else None.

(** The result of an [int64] operation, reduced to 64 bits two's
    complement. *)
Definition wrap64 (z : Z) : Z := (z + 2 ^ 63) mod 2 ^ 64 - 2 ^ 63.

Definition int64_range (z : Z) : Prop := - 2 ^ 63 <= z < 2 ^ 63.

(** The verb [%d] of [fmt] on an integer. *)
Definition fmt_d (z : Z) : string := NilZero.string_of_int (Z.to_int z).

(** ** The methods of the machine *)

Section Machine.
Context {code : CodePkg} {object : ObjectPkg}.

(** [o.Type()] on an interface value: a nil interface has no method to
    call. *)
Definition typeOf (o : Object) : M ObjectType :=
  match o with
  | Nil => panic NilDereference
  | Ptr _ d => ret (Type_ d)
  end.

(** [o.( *object.Integer ).Value] *)
Definition integerValue (o : Object) : M Z :=
  match o with
  | Ptr _ (Integer v) => ret v
  | _ => panic InterfaceConversion
  end.

(** [&object.Integer{Value: v}] *)
Definition newInteger (v : Z) : M Object :=
  fun vm =>
    Returns (Ptr (heap vm) (Integer v))
      {| contants := contants vm; instructions := instructions vm;
         stack := stack vm; sp := sp vm; heap := N.succ (heap vm) |}.

Definition push (o : Object) : M error :=
  fun vm =>
    if sp vm >=? StackSize then Returns (Some "stack overflow"%string) vm
    else
      if decide (0 <= sp vm < Z.of_nat (length (stack vm))) then
        Returns None
          {| contants := contants vm; instructions := instructions vm;
             stack := <[Z.to_nat (sp vm) := o]> (stack vm);
             sp := sp vm + 1; heap := heap vm |}
      else Panics IndexOutOfRange.

Definition pop : M Object :=
  fun vm =>
    match index (stack vm) (sp vm - 1) with
    | Some o =>
        Returns o
          {| contants := contants vm; instructions := instructions vm;
             stack := stack vm; sp := sp vm - 1; heap := heap vm |}
    | None => Panics IndexOutOfRange
    end.

Definition LastPoppedStackElement : M Object :=
  fun vm => orPanic IndexOutOfRange (index (stack vm) (sp vm)) vm.

Definition nativeBoolToBoolean (input : bool) : Object :=
  if input then vm_True else vm_False.

Definition executeBinaryIntegerOperation
    (op : Opcode) (left right : Object) : M error :=
  leftValue <- integerValue left ;;
  rightValue <- integerValue right ;;
  if op =? OpAdd then
    o <- newInteger (wrap64 (leftValue + rightValue)) ;; push o
  else if op =? OpSub then
    o <- newInteger (wrap64 (leftValue - rightValue)) ;; push o
  else if op =? OpMul then
    o <- newInteger (wrap64 (leftValue * rightValue)) ;; push o
  else if op =? OpDiv then
    if rightValue =? 0 then panic IntegerDivideByZero
    else o <- newInteger (wrap64 (leftValue ÷ rightValue)) ;; push o
  else
    ret (Some ("unknown integer operator: " ++ fmt_d op)%string).

Definition executeBinaryOperation (op : Opcode) : M error :=
  right <- pop ;;
  left <- pop ;;
  leftType <- typeOf left ;;
  rightType <- typeOf right ;;
  if String.eqb leftType INTEGER_OBJ && String.eqb rightType INTEGER_OBJ then
    executeBinaryIntegerOperation op left right
  else
    ret (Some ("unsupported types for binary operation: "
               ++ leftType ++ " " ++ rightType)%string).

Definition executeIntegerComparison
    (op : Opcode) (left right : Object) : M error :=
  leftval <- integerValue left ;;
  rightval <- integerValue right ;;
  if op =? OpEqual then
    push (nativeBoolToBoolean (rightval =? leftval))
  else if op =? OpNotEqual then
    push (nativeBoolToBoolean (negb (rightval =? leftval)))
  else if op =? OpGreaterThan then
    push (nativeBoolToBoolean (leftval >? rightval))
  else
    ret (Some ("unknown operator: " ++ fmt_d op)%string).

(** The condition [left.Type() == INTEGER_OBJ && right.Type() == INTEGER_OBJ]
    is short-circuit: [right.Type()] is called only when the left kind is
    Integer. *)
Definition executeComparison (op : Opcode) : M error :=
  right <- pop ;;
  left <- pop ;;
  leftType <- typeOf left ;;
  bothInteger <-
    (if String.eqb leftType INTEGER_OBJ then
       rightType <- typeOf right ;; ret (String.eqb rightType INTEGER_OBJ)
     else ret false) ;;
  if bothInteger : bool then executeIntegerComparison op left right
  else if op =? OpEqual then
    push (nativeBoolToBoolean (iface_eq right left))
  else if op =? OpNotEqual then
    push (nativeBoolToBoolean (negb (iface_eq right left)))
  else
    leftType <- typeOf left ;;
    rightType <- typeOf right ;;
    ret (Some ("unknown operator " ++ fmt_d op
               ++ " (" ++ leftType ++ " " ++ rightType ++ ")")%string).

Definition executeBangOperator : M error :=
  operand <- pop ;;
  if iface_eq operand vm_True then push vm_False
  else if iface_eq operand vm_False then push vm_True
  else push vm_False.

Definition executeMinusOperator : M error :=
  operand <- pop ;;
  operandType <- typeOf operand ;;
  if negb (String.eqb operandType INTEGER_OBJ) then
    operandType' <- typeOf operand ;;
    ret (Some ("unsupported type for negation: " ++ operandType')%string)
  else
    value <- integerValue operand ;;
    o <- newInteger (wrap64 (- value)) ;; push o.

(** *** The dispatch loop of [Run]

    One iteration of the [for] loop either falls out of the [switch], with
    the instruction pointer the body leaves (the loop then adds one), or
    executes a [return]. *)
Inductive Flow : Type :=
| Continue (ip : Z)
| Return (err : error).

(** [if err != nil { return err }] *)
Definition returnIfError (ip : Z) (err : error) : Flow :=
  match err with
  | Some _ => Return err
  | None => Continue ip
  end.

(** The statement [switch op { ... }] of the loop body. *)
Definition switch (ip : Z) (op : Opcode) : M Flow :=
  if op =? OpConstant then
    ins <- gets instructions ;;
    operand <- orPanic IndexOutOfRange (slice_from ins (ip + 1)) ;;
    constIndex <- orPanic IndexOutOfRange (ReadUint16 operand) ;;
    let ip := ip + 2 in
    cs <- gets contants ;;
    o <- orPanic IndexOutOfRange (index cs constIndex) ;;
    err <- push o ;;
    ret (returnIfError ip err)
  else if (op =? OpAdd) || (op =? OpSub) || (op =? OpMul) || (op =? OpDiv) then
    err <- executeBinaryOperation op ;;
    match err with
    | Some _ => ret (Return None)      (* [if err != nil { return nil }] *)
    | None => ret (Continue ip)
    end
  else if op =? OpPop then
    _ <- pop ;; ret (Continue ip)
  else if op =? OpTrue then
    err <- push vm_True ;; ret (returnIfError ip err)
  else if op =? OpFalse then
    err <- push vm_False ;; ret (returnIfError ip err)
  else if (op =? OpEqual) || (op =? OpNotEqual) || (op =? OpGreaterThan) then
    err <- executeComparison op ;; ret (returnIfError ip err)
  else if op =? OpBang then
    err <- executeBangOperator ;; ret (returnIfError ip err)
  else if op =? OpMinus then
    err <- executeMinusOperator ;; ret (returnIfError ip err)
  else
    ret (Continue ip).

(** The loop body: [op := code.Opcode(vm.instructions[ip])], then the
    [switch]. *)
Definition body (ip : Z) : M Flow :=
  ins <- gets instructions ;;
  op <- orPanic IndexOutOfRange (index ins ip) ;;
  switch ip op.

(** [for ip := 0; ip < len(vm.instructions); ip++ { ... }; return nil],
    entered with the instruction pointer [ip].  [None]: the iterations
    allowed by [fuel] did not reach the end of the loop. *)
Fixpoint loop (fuel : nat) (ip : Z) (vm : VM) : option (Outcome error) :=
  if ip <? Z.of_nat (length (instructions vm)) then
    match fuel with
    | O => None
    | S fuel' =>
        match body ip vm with
        | Returns (Continue ip') vm' => loop fuel' (ip' + 1) vm'
        | Returns (Return err) vm' => Some (Returns err vm')
        | Panics p => Some (Panics p)
        end
    end
  else Some (Returns None vm).

(** [func (vm *VM) Run() error]: every iteration advances the instruction
    pointer, so as many iterations as there are bytes suffice
    ([Run_terminates]). *)
Definition Run (vm : VM) : option (Outcome error) :=
  loop (length (instructions vm)) 0 vm.

End Machine.

(** ** A concrete numbering

    The numbering of the opcodes and the kind names used to run the machine
    on concrete programs. *)
Definition code0 : CodePkg :=
  {| OpConstant := 0; OpAdd := 1; OpPop := 2; OpSub := 3; OpMul := 4;
     OpDiv := 5; OpTrue := 6; OpFalse := 7; OpEqual := 8; OpNotEqual := 9;
     OpGreaterThan := 10; OpMinus := 11; OpBang := 12 |}.

Definition object0 : ObjectPkg :=
  {| INTEGER_OBJ := "INTEGER"%string; BOOLEAN_OBJ := "BOOLEAN"%string |}.

(** The machine after its [n] topmost operands were popped and [o] was
    pushed in their place; [h] is the allocator's frontier afterwards. *)
Definition replaceTop (n : Z) (o : Object) (h : addr) (vm : VM) : VM :=
  {| contants := contants vm; instructions := instructions vm;
     stack := <[Z.to_nat (sp vm - n) := o]> (stack vm);
     sp := sp vm - n + 1; heap := h |}.

(** The machine after its [n] topmost operands were popped; [h] is the
    allocator's frontier afterwards. *)
Definition dropTop (n : Z) (h : addr) (vm : VM) : VM :=
  {| contants := contants vm; instructions := instructions vm;
     stack := stack vm; sp := sp vm - n; heap := h |}.

(** The stack is the array [New] allocated and [sp] lies within it. *)
Definition stack_ok (vm : VM) : Prop :=
  Z.of_nat (length (stack vm)) = StackSize /\ 0 <= sp vm <= StackSize.

(** ** The vocabulary of the statements *)

(** The machine [New] makes for [bytecode], after [values] were pushed in
    order; [h] is the allocator's frontier. *)
Definition loaded (bytecode : Bytecode) (h : addr) (values : list Object) : VM :=
  {| contants := Constants bytecode;
     instructions := Instructions bytecode;
     stack := values ++ replicate (Z.to_nat StackSize - length values) Nil;
     sp := Z.of_nat (length values);
     heap := h |}.

(** What every method leaves in place: the instruction stream, the
    constant pool and the length of the stack; and each keeps the stack
    pointer inside the stack. *)
Definition frame (vm vm' : VM) : Prop :=
  instructions vm' = instructions vm
  /\ contants vm' = contants vm
  /\ length (stack vm') = length (stack vm)
  /\ (stack_ok vm -> stack_ok vm').

Definition framed {A} (m : M A) : Prop :=
  forall vm a vm', m vm = Returns a vm' -> frame vm vm'.

(** Two Integer operands on top of the stack: the right one above the left
    one. *)
Definition integerOperands (vm : VM) (a b : Z) : Prop :=
  exists pa pb,
    index (stack vm) (sp vm - 2) = Some (Ptr pa (Integer a))
    /\ index (stack vm) (sp vm - 1) = Some (Ptr pb (Integer b)).

(** The machine after a binary operator replaced its two operands by a new
    Integer of value [v]. *)
Definition integerResult (vm : VM) (v : Z) : VM :=
  replaceTop 2 (Ptr (heap vm) (Integer v)) (N.succ (heap vm)) vm.

(** The machine after a comparison replaced its two operands by the boolean
    singleton for [t]; nothing is allocated. *)
Definition booleanResult (vm : VM) (t : bool) : VM :=
  replaceTop 2 (if t then vm_True else vm_False) (heap vm) vm.

(** What the three-way [switch] of [executeBangOperator] pushes. *)
Definition bangOf (operand : Object) : Object :=
  if iface_eq operand vm_True then vm_False
  else if iface_eq operand vm_False then vm_True
  else vm_False.

(** An iteration that falls out of the [switch] leaves the instruction
    pointer where it was or two bytes further. *)
Definition advances (ip : Z) (m : M Flow) : Prop :=
  forall vm ip' vm', m vm = Returns (Continue ip') vm' -> ip <= ip'.

(** A [return] executed by [m] carries an error. *)
Definition returnsItsError (m : M Flow) : Prop :=
  forall vm err vm', m vm = Returns (Return err) vm' -> err <> None.

(** [m] leaves the contents of the stack array as they are. *)
Definition keeps_stack {A} (m : M A) : Prop :=
  forall vm a vm', m vm = Returns a vm' -> stack vm' = stack vm.

(** [m] changes no slot of the stack array but, possibly, the one just
    below the stack pointer it leaves. *)
Definition writes_top {A} (m : M A) : Prop :=
  forall vm a vm',
    m vm = Returns a vm' ->
    forall i, i <> sp vm' - 1 -> index (stack vm') i = index (stack vm) i.

(** [m] leaves the stack pointer where it is. *)
Definition keeps_sp {A} (m : M A) : Prop :=
  forall vm a vm', m vm = Returns a vm' -> sp vm' = sp vm.

(** [Q a d] holds of every value [a] that [m] returns and of the
    difference [d] between the stack pointer after and before. *)
Definition sp_moves {A} (m : M A) (Q : A -> Z -> Prop) : Prop :=
  forall vm a vm', m vm = Returns a vm' -> Q a (sp vm' - sp vm).

(** What an operator does to the stack pointer: [ok] when it returns nil,
    [failed] when it returns an error. *)
Definition effect (ok failed : Z) (err : error) (d : Z) : Prop :=
  (err = None -> d = ok) /\ (err <> None -> d = failed).

(** The same for an iteration of the loop: [ok] when the loop goes on,
    [failed] when the iteration returns from [Run]. *)
Definition flowEffect (ok failed : Z) (flow : Flow) (d : Z) : Prop :=
  match flow with
  | Continue _ => d = ok
  | Return _ => d = failed
  end.

Section Vocabulary.
Context {code : CodePkg} {object : ObjectPkg}.

(** The kind Integer is reported by Integers only. *)
Definition integerKindIsInteger (d : Data) : Prop :=
  Type_ d = INTEGER_OBJ -> exists n, d = Integer n.

(** An instruction stream of load-true and load-false opcodes. *)
Definition literalProgram (ins : list byte) : Prop :=
  Forall (fun b => b = OpTrue \/ b = OpFalse) ins.


Definition isBinaryOp (op : Opcode) : Prop :=
  op = OpAdd \/ op = OpSub \/ op = OpMul \/ op = OpDiv.

Definition isComparisonOp (op : Opcode) : Prop :=
  op = OpEqual \/ op = OpNotEqual \/ op = OpGreaterThan.

(** Both operands are of kind Integer. *)
Definition bothInteger (dl dr : Data) : Prop :=
  Type_ dl = INTEGER_OBJ /\ Type_ dr = INTEGER_OBJ.

(** The states in which the loop of [Run], started on [vm0], tests its
    condition: [reaches vm0 ip vm] when the loop arrives at instruction
    pointer [ip] with the machine [vm]. *)
Inductive reaches (vm0 : VM) : Z -> VM -> Prop :=
| reaches_start : reaches vm0 0 vm0
| reaches_next (ip ip' : Z) (vm vm' : VM) :
    reaches vm0 ip vm ->
    ip < Z.of_nat (length (instructions vm)) ->
    body ip vm = Returns (Continue ip') vm' ->
    reaches vm0 (ip' + 1) vm'.

End Vocabulary.

(** * Proofs *)

(** ** Slices *)

Lemma index_in_range {A} (s : list A) (i : Z) :
  0 <= i < Z.of_nat (length s) -> index s i = s !! Z.to_nat i.
Proof. intros Hi. unfold index. case_decide; [reflexivity | lia]. Qed.

Lemma index_out_of_range {A} (s : list A) (i : Z) :
  ~ 0 <= i < Z.of_nat (length s) -> index s i = None.
Proof. intros Hi. unfold index. case_decide; [lia | reflexivity]. Qed.

Lemma index_Some_range {A} (s : list A) (i : Z) (x : A) :
  index s i = Some x -> 0 <= i < Z.of_nat (length s).
Proof. unfold index. case_decide; [tauto | discriminate]. Qed.

Lemma index_insert_same {A} (s : list A) (i : Z) (x : A) :
  0 <= i < Z.of_nat (length s) ->
  index (<[Z.to_nat i := x]> s) i = Some x.
Proof.
  intros Hi. rewrite index_in_range by (rewrite length_insert; lia).
  apply list_lookup_insert_eq. lia.
Qed.

Lemma index_insert_other {A} (s : list A) (i j : Z) (x : A) :
  0 <= i -> 0 <= j -> i <> j ->
  index (<[Z.to_nat i := x]> s) j = index s j.
Proof.
  intros Hi Hj Hne. unfold index. rewrite length_insert.
  case_decide; [| reflexivity].
  apply list_lookup_insert_ne. lia.
Qed.

(** ** The stack primitives *)

Lemma push_ok (o : Object) (vm : VM) :
  0 <= sp vm < StackSize -> sp vm < Z.of_nat (length (stack vm)) ->
  push o vm = Returns None (replaceTop 0 o (heap vm) vm).
Proof.
  intros Hsp Hlen. unfold push, replaceTop.
  destruct (Z.geb_spec (sp vm) StackSize); [lia |].
  case_decide; [| lia].
  rewrite Z.sub_0_r. reflexivity.
Qed.

Lemma push_full (o : Object) (vm : VM) :
  StackSize <= sp vm -> push o vm = Returns (Some "stack overflow"%string) vm.
Proof.
  intros Hsp. unfold push.
  destruct (Z.geb_spec (sp vm) StackSize); [reflexivity | lia].
Qed.

Lemma pop_ok (o : Object) (vm : VM) :
  index (stack vm) (sp vm - 1) = Some o ->
  pop vm = Returns o (dropTop 1 (heap vm) vm).
Proof. intros Ho. unfold pop. rewrite Ho. reflexivity. Qed.

Lemma dropTop_dropTop (n m : Z) (h h' : addr) (vm : VM) :
  dropTop m h' (dropTop n h vm) = dropTop (n + m) h' vm.
Proof. unfold dropTop. cbn. f_equal. lia. Qed.

Lemma pop_dropTop (o : Object) (n : Z) (h : addr) (vm : VM) :
  index (stack vm) (sp vm - (n + 1)) = Some o ->
  pop (dropTop n h vm) = Returns o (dropTop (n + 1) h vm).
Proof.
  intros Ho. rewrite (pop_ok o).
  - cbn [heap dropTop]. rewrite dropTop_dropTop. reflexivity.
  - cbn [stack sp dropTop]. rewrite <- Ho. f_equal. lia.
Qed.

Lemma newInteger_dropTop (v n : Z) (h : addr) (vm : VM) :
  newInteger v (dropTop n h vm)
  = Returns (Ptr h (Integer v)) (dropTop n (N.succ h) vm).
Proof. reflexivity. Qed.

Lemma push_dropTop (o : Object) (n : Z) (h : addr) (vm : VM) :
  0 <= sp vm - n < StackSize -> sp vm - n < Z.of_nat (length (stack vm)) ->
  push o (dropTop n h vm) = Returns None (replaceTop n o h vm).
Proof.
  intros Hsp Hlen. rewrite push_ok by assumption.
  unfold replaceTop, dropTop. cbn. rewrite Z.sub_0_r. reflexivity.
Qed.

Lemma dropTop_0 (vm : VM) : dropTop 0 (heap vm) vm = vm.
Proof. unfold dropTop. destruct vm. cbn. rewrite Z.sub_0_r. reflexivity. Qed.

Lemma pop_empty (vm : VM) : sp vm <= 0 -> pop vm = Panics IndexOutOfRange.
Proof.
  intros Hsp. unfold pop. rewrite index_out_of_range by lia. reflexivity.
Qed.

(** C10. [push] at capacity ([sp = StackSize]) reports "stack overflow" and
    leaves the machine, stack pointer and stack contents included, as it
    was; below capacity it stores the value at [stack[sp]] and increments
    [sp].  Either way [0 <= sp <= StackSize] holds afterwards, and no value
    is dropped without the error. *)
Theorem push_overflow_or_store (o : Object) (vm : VM) (Hok : stack_ok vm) :
  (sp vm = StackSize ->
     push o vm = Returns (Some "stack overflow"%string) vm)
  /\ (sp vm < StackSize ->
       push o vm = Returns None (replaceTop 0 o (heap vm) vm)
       /\ index (stack (replaceTop 0 o (heap vm) vm)) (sp vm) = Some o
       /\ sp (replaceTop 0 o (heap vm) vm) = sp vm + 1)
  /\ (exists err vm', push o vm = Returns err vm' /\ stack_ok vm'
       /\ (err = None <-> sp vm < StackSize)).
Proof.
  destruct Hok as [Hlen Hsp].
  assert (Hstore : sp vm < StackSize ->
            push o vm = Returns None (replaceTop 0 o (heap vm) vm)).
  { intros Hlt. apply push_ok; lia. }
  split; [| split].
  - intros Heq. apply push_full. lia.
  - intros Hlt. split; [auto |]. split.
    + cbn [replaceTop stack]. rewrite Z.sub_0_r.
      apply index_insert_same. lia.
    + cbn [replaceTop sp]. lia.
  - destruct (Z.eq_dec (sp vm) StackSize) as [Heq | Hne].
    + exists (Some "stack overflow"%string), vm.
      split; [apply push_full; lia |]. split; [split; assumption |].
      split; [discriminate | lia].
    + exists None, (replaceTop 0 o (heap vm) vm).
      split; [apply Hstore; lia |]. split.
      * split; cbn [replaceTop stack sp]; [rewrite length_insert; lia | lia].
      * split; [lia | reflexivity].
Qed.

Lemma push_overflow_or_store_witness :
  push vm_True (New (mkBytecode [] []) 2%N)
  = Returns None (replaceTop 0 vm_True 2%N (New (mkBytecode [] []) 2%N)).
Proof.
  apply (push_overflow_or_store vm_True (New (mkBytecode [] []) 2%N)).
  - split; [reflexivity | cbn; unfold StackSize; lia].
  - reflexivity.
Defined.


(** ** Dispatch on the opcode *)

(** The pairwise disequalities contained in [distinct_opcodes]. *)
Ltac split_distinct H :=
  unfold distinct_opcodes, opcodes_of in H;
  repeat match type of H with
  | NoDup (_ :: _) =>
      let Hin := fresh "Hin" in
      apply NoDup_cons in H; destruct H as [Hin H];
      repeat (apply not_elem_of_cons in Hin; destruct Hin as [? Hin]);
      clear Hin
  end; clear H.

(** Rewrites every comparison between two opcodes in the goal, from the
    disequalities among the hypotheses. *)
Ltac rewrite_opcodes :=
  repeat match goal with
  | |- context [Z.eqb ?a ?b] =>
      first [ rewrite (Z.eqb_refl a)
            | rewrite (proj2 (Z.eqb_neq a b)) by congruence ]
  end;
  cbn [orb andb negb].

Ltac clear_distinct :=
  repeat match goal with
  | H : ?a <> _ |- _ =>
      match type of a with Opcode => clear H end
  end.

(** Decides every comparison between two opcode constants in the goal. *)
Ltac decide_opcodes Hd :=
  let H := fresh "Hd" in
  pose proof Hd as H; split_distinct H; rewrite_opcodes; clear_distinct.

Lemma concrete_numbering_distinct : distinct_opcodes code0.
Proof. apply (bool_decide_unpack _). vm_compute. exact I. Qed.

Section Dispatch.
Context {code : CodePkg} {object : ObjectPkg}.

Lemma body_fetch (ip : Z) (vm : VM) (op : Opcode) :
  index (instructions vm) ip = Some op -> body ip vm = switch ip op vm.
Proof. intros Hop. unfold body, bind, gets. rewrite Hop. reflexivity. Qed.

Lemma body_binary (ip : Z) (vm : VM) (op : Opcode) :
  distinct_opcodes code ->
  index (instructions vm) ip = Some op -> isBinaryOp op ->
  body ip vm =
    (err <- executeBinaryOperation op ;;
     match err with
     | Some _ => ret (Return None)
     | None => ret (Continue ip)
     end) vm.
Proof.
  intros Hd Hop Hbin. rewrite (body_fetch _ _ op) by assumption. unfold switch.
  destruct Hbin as [-> | [-> | [-> | ->]]]; decide_opcodes Hd; reflexivity.
Qed.

Lemma body_comparison (ip : Z) (vm : VM) (op : Opcode) :
  distinct_opcodes code ->
  index (instructions vm) ip = Some op -> isComparisonOp op ->
  body ip vm =
    (err <- executeComparison op ;; ret (returnIfError ip err)) vm.
Proof.
  intros Hd Hop Hcmp. rewrite (body_fetch _ _ op) by assumption. unfold switch.
  destruct Hcmp as [-> | [-> | ->]]; decide_opcodes Hd; reflexivity.
Qed.

Lemma body_pop (ip : Z) (vm : VM) :
  distinct_opcodes code ->
  index (instructions vm) ip = Some OpPop ->
  body ip vm = (_ <- pop ;; ret (Continue ip)) vm.
Proof.
  intros Hd Hop. rewrite (body_fetch _ _ OpPop) by assumption. unfold switch.
  decide_opcodes Hd. reflexivity.
Qed.

Lemma body_true (ip : Z) (vm : VM) :
  distinct_opcodes code ->
  index (instructions vm) ip = Some OpTrue ->
  body ip vm = (err <- push vm_True ;; ret (returnIfError ip err)) vm.
Proof.
  intros Hd Hop. rewrite (body_fetch _ _ OpTrue) by assumption. unfold switch.
  decide_opcodes Hd. reflexivity.
Qed.

Lemma body_false (ip : Z) (vm : VM) :
  distinct_opcodes code ->
  index (instructions vm) ip = Some OpFalse ->
  body ip vm = (err <- push vm_False ;; ret (returnIfError ip err)) vm.
Proof.
  intros Hd Hop. rewrite (body_fetch _ _ OpFalse) by assumption. unfold switch.
  decide_opcodes Hd. reflexivity.
Qed.

Lemma body_bang (ip : Z) (vm : VM) :
  distinct_opcodes code ->
  index (instructions vm) ip = Some OpBang ->
  body ip vm = (err <- executeBangOperator ;; ret (returnIfError ip err)) vm.
Proof.
  intros Hd Hop. rewrite (body_fetch _ _ OpBang) by assumption. unfold switch.
  decide_opcodes Hd. reflexivity.
Qed.

Lemma body_minus (ip : Z) (vm : VM) :
  distinct_opcodes code ->
  index (instructions vm) ip = Some OpMinus ->
  body ip vm = (err <- executeMinusOperator ;; ret (returnIfError ip err)) vm.
Proof.
  intros Hd Hop. rewrite (body_fetch _ _ OpMinus) by assumption. unfold switch.
  decide_opcodes Hd. reflexivity.
Qed.


End Dispatch.

(** ** What every method leaves in place *)

Lemma frame_refl (vm : VM) : frame vm vm.
Proof. unfold frame. tauto. Qed.

Lemma frame_trans (vm1 vm2 vm3 : VM) :
  frame vm1 vm2 -> frame vm2 vm3 -> frame vm1 vm3.
Proof.
  unfold frame. intros (Hi & Hc & Hl & Hs) (Hi' & Hc' & Hl' & Hs').
  split; [congruence |]. split; [congruence |]. split; [congruence | auto].
Qed.

Lemma framed_ret {A} (a : A) : framed (ret a).
Proof. intros vm a' vm' [= _ <-]. apply frame_refl. Qed.

Lemma framed_panic {A} (p : Panic) : framed (@panic A p).
Proof. intros vm a vm'. discriminate. Qed.

Lemma framed_gets {A} (f : VM -> A) : framed (gets f).
Proof. intros vm a' vm' [= _ <-]. apply frame_refl. Qed.

Lemma framed_orPanic {A} (p : Panic) (o : option A) : framed (orPanic p o).
Proof. destruct o; [apply framed_ret | apply framed_panic]. Qed.

Lemma framed_bind {A B} (m : M A) (k : A -> M B) :
  framed m -> (forall a, framed (k a)) -> framed (bind m k).
Proof.
  intros Hm Hk vm b vm'. unfold bind.
  destruct (m vm) as [a vm1 |] eqn:E; [| discriminate].
  intros Hb. eapply frame_trans; [eapply Hm | eapply Hk]; eassumption.
Qed.

Lemma framed_push (o : Object) : framed (push o).
Proof.
  intros vm err vm'. unfold push.
  destruct (Z.geb_spec (sp vm) StackSize).
  - intros [= _ <-]. apply frame_refl.
  - case_decide; [| discriminate]. intros [= _ <-].
    unfold frame, stack_ok. cbn [instructions contants stack sp].
    rewrite length_insert. repeat split; try tauto; lia.
Qed.

Lemma framed_pop : framed pop.
Proof.
  intros vm o vm'. unfold pop.
  destruct (index (stack vm) (sp vm - 1)) eqn:E; [| discriminate].
  apply index_Some_range in E. intros [= _ <-].
  unfold frame, stack_ok. cbn [instructions contants stack sp].
  repeat split; try tauto; lia.
Qed.

Lemma framed_newInteger (v : Z) : framed (newInteger v).
Proof.
  intros vm o vm' [= _ <-]. unfold frame, stack_ok.
  cbn [instructions contants stack sp]. tauto.
Qed.

Lemma framed_typeOf `{ObjectPkg} (o : Object) : framed (typeOf o).
Proof. destruct o; [apply framed_panic | apply framed_ret]. Qed.

Lemma framed_integerValue (o : Object) : framed (integerValue o).
Proof.
  destruct o as [| a []]; first [apply framed_panic | apply framed_ret].
Qed.

Create HintDb framed.
#[local] Hint Resolve framed_ret framed_panic framed_gets framed_orPanic framed_push
  framed_pop framed_newInteger framed_typeOf framed_integerValue : framed.

(** Walks through a monadic program, one [bind], branch or primitive at a
    time. *)
Ltac framed_step :=
  match goal with
  | |- framed (bind _ _) => apply framed_bind; [| intros ?]
  | |- framed (if ?b then _ else _) => destruct b
  | |- framed (match ?e with Some _ => _ | None => _ end) => destruct e
  | |- framed _ => solve [auto with framed]
  end.

Section Frames.
Context {code : CodePkg} {object : ObjectPkg}.

Lemma framed_executeBinaryIntegerOperation op l r :
  framed (executeBinaryIntegerOperation op l r).
Proof. unfold executeBinaryIntegerOperation. repeat framed_step. Qed.

Lemma framed_executeBinaryOperation op : framed (executeBinaryOperation op).
Proof.
  unfold executeBinaryOperation. repeat framed_step.
  apply framed_executeBinaryIntegerOperation.
Qed.

Lemma framed_executeIntegerComparison op l r :
  framed (executeIntegerComparison op l r).
Proof. unfold executeIntegerComparison. repeat framed_step. Qed.

Lemma framed_executeComparison op : framed (executeComparison op).
Proof.
  unfold executeComparison. repeat framed_step.
  apply framed_executeIntegerComparison.
Qed.

Lemma framed_executeBangOperator : framed executeBangOperator.
Proof. unfold executeBangOperator. repeat framed_step. Qed.

Lemma framed_executeMinusOperator : framed executeMinusOperator.
Proof. unfold executeMinusOperator. repeat framed_step. Qed.

Lemma framed_body (ip : Z) : framed (body ip).
Proof.
  unfold body, switch. repeat framed_step;
    auto using framed_executeBinaryOperation, framed_executeComparison,
      framed_executeBangOperator, framed_executeMinusOperator.
Qed.

End Frames.

(** ** The operators *)

Lemma wrap64_id (z : Z) : int64_range z -> wrap64 z = z.
Proof.
  unfold int64_range, wrap64. intros Hz.
  rewrite Z.mod_small by lia. lia.
Qed.

Lemma wrap64_range (z : Z) : int64_range (wrap64 z).
Proof.
  unfold int64_range, wrap64.
  pose proof (Z.mod_pos_bound (z + 2 ^ 63) (2 ^ 64) ltac:(lia)). lia.
Qed.

(** The quotient of two [int64] values fits in 64 bits except for the one
    pair [-2^63 / -1]. *)
Lemma quot_int64_range (a b : Z) :
  int64_range a -> int64_range b -> b <> 0 ->
  ~ (a = - 2 ^ 63 /\ b = -1) ->
  int64_range (a ÷ b).
Proof.
  unfold int64_range. intros Ha Hb Hb0 Hne.
  destruct (Z.eq_dec b (-1)) as [-> | Hb1].
  - rewrite <- (Z.opp_involutive a) at 1 2.
    change (-1) with (- (1)). rewrite Z.quot_opp_opp by lia.
    rewrite Z.quot_1_r. lia.
  - destruct (Z.eq_dec b 1) as [-> | Hb2]; [rewrite Z.quot_1_r; lia |].
    pose proof (Z.quot_abs a b Hb0) as Habs.
    assert (Hlt : Z.abs (a ÷ b) <= Z.abs a ÷ 2).
    { rewrite <- Habs. apply Z.quot_le_compat_l; lia. }
    assert (Z.abs a ÷ 2 <= 2 ^ 62).
    { rewrite Z.quot_div_nonneg by lia.
      apply Z.div_le_upper_bound; lia. }
    lia.
Qed.

(** Go's comparisons of two [int64] values, as the code writes them, decide
    the mathematical relations. *)
Lemma eqb_decide (a b : Z) : (b =? a) = bool_decide (a = b).
Proof.
  destruct (Z.eqb_spec b a); case_bool_decide;
    first [reflexivity | exfalso; lia].
Qed.

Lemma neqb_decide (a b : Z) : negb (b =? a) = bool_decide (a <> b).
Proof.
  destruct (Z.eqb_spec b a); case_bool_decide; cbn;
    first [reflexivity | exfalso; lia].
Qed.

Lemma gtb_decide (a b : Z) : (a >? b) = bool_decide (a > b).
Proof.
  rewrite Z.gtb_ltb.
  destruct (Z.ltb_spec b a); case_bool_decide;
    first [reflexivity | exfalso; lia].
Qed.

Section Operators.
Context {code : CodePkg} {object : ObjectPkg}.

Lemma pop_pop {A} (vm : VM) (r l : Object) (k : Object -> Object -> M A) :
  index (stack vm) (sp vm - 1) = Some r ->
  index (stack vm) (sp vm - 2) = Some l ->
  (right <- pop ;; left <- pop ;; k right left) vm
  = k r l (dropTop 2 (heap vm) vm).
Proof.
  intros Hr Hl. unfold bind at 1. rewrite (pop_ok r) by assumption.
  unfold bind at 1. rewrite (pop_dropTop l) by assumption. reflexivity.
Qed.

Lemma newInteger_push (v n : Z) (h : addr) (vm : VM) :
  0 <= sp vm - n < StackSize -> sp vm - n < Z.of_nat (length (stack vm)) ->
  (o <- newInteger v ;; push o) (dropTop n h vm)
  = Returns None (replaceTop n (Ptr h (Integer v)) (N.succ h) vm).
Proof.
  intros Hsp Hlen. unfold bind. rewrite newInteger_dropTop.
  apply push_dropTop; assumption.
Qed.

Lemma executeBinaryOperation_integers (op : Opcode) (vm : VM) (pa pb : addr) (a b : Z) :
  index (stack vm) (sp vm - 2) = Some (Ptr pa (Integer a)) ->
  index (stack vm) (sp vm - 1) = Some (Ptr pb (Integer b)) ->
  executeBinaryOperation op vm
  = executeBinaryIntegerOperation op (Ptr pa (Integer a)) (Ptr pb (Integer b))
      (dropTop 2 (heap vm) vm).
Proof.
  intros Hl Hr. unfold executeBinaryOperation.
  rewrite (pop_pop vm _ _ _ Hr Hl).
  unfold bind, typeOf, ret. cbn [Type_].
  rewrite !String.eqb_refl. reflexivity.
Qed.

Lemma executeBinaryOperation_arith (vm : VM) (a b : Z) :
  distinct_opcodes code -> stack_ok vm -> integerOperands vm a b ->
  executeBinaryOperation OpAdd vm
    = Returns None (integerResult vm (wrap64 (a + b)))
  /\ executeBinaryOperation OpSub vm
    = Returns None (integerResult vm (wrap64 (a - b)))
  /\ executeBinaryOperation OpMul vm
    = Returns None (integerResult vm (wrap64 (a * b)))
  /\ (b <> 0 ->
      executeBinaryOperation OpDiv vm
      = Returns None (integerResult vm (wrap64 (a ÷ b))))
  /\ (b = 0 -> executeBinaryOperation OpDiv vm = Panics IntegerDivideByZero).
Proof.
  intros Hd [Hlen Hsp] (pa & pb & Hl & Hr).
  pose proof (index_Some_range _ _ _ Hl) as Hrange.
  repeat split; try intros Hb;
    rewrite (executeBinaryOperation_integers _ vm pa pb a b Hl Hr);
    unfold executeBinaryIntegerOperation, integerResult;
    unfold bind at 1; cbn [integerValue ret];
    unfold bind at 1; cbn [integerValue ret];
    decide_opcodes Hd.
  1-4: apply newInteger_push; lia.
  subst b. reflexivity.
Qed.

(** *** Binary arithmetic on other kinds *)

Lemma bothInteger_false (dl dr : Data) :
  ~ bothInteger dl dr ->
  String.eqb (Type_ dl) INTEGER_OBJ && String.eqb (Type_ dr) INTEGER_OBJ = false.
Proof.
  unfold bothInteger. intros Hnot.
  destruct (String.eqb_spec (Type_ dl) INTEGER_OBJ);
    destruct (String.eqb_spec (Type_ dr) INTEGER_OBJ); tauto.
Qed.

Lemma executeBinaryOperation_unsupported
    (op : Opcode) (vm : VM) (pl pr : addr) (dl dr : Data) :
  index (stack vm) (sp vm - 2) = Some (Ptr pl dl) ->
  index (stack vm) (sp vm - 1) = Some (Ptr pr dr) ->
  ~ bothInteger dl dr ->
  executeBinaryOperation op vm
  = Returns (Some ("unsupported types for binary operation: "
                   ++ Type_ dl ++ " " ++ Type_ dr)%string)
      (dropTop 2 (heap vm) vm).
Proof.
  intros Hl Hr Hnot. unfold executeBinaryOperation.
  rewrite (pop_pop vm _ _ _ Hr Hl).
  unfold bind, typeOf, ret.
  rewrite (bothInteger_false _ _ Hnot). reflexivity.
Qed.

(** *** Comparisons *)

Lemma push_boolean (t : bool) (vm : VM) :
  stack_ok vm -> 2 <= sp vm ->
  push (nativeBoolToBoolean t) (dropTop 2 (heap vm) vm)
  = Returns None (booleanResult vm t).
Proof.
  intros [Hlen Hsp] H2. unfold booleanResult, nativeBoolToBoolean.
  apply push_dropTop; lia.
Qed.

Lemma executeComparison_integers (vm : VM) (a b : Z) :
  distinct_opcodes code -> stack_ok vm -> integerOperands vm a b ->
  executeComparison OpEqual vm
    = Returns None (booleanResult vm (bool_decide (a = b)))
  /\ executeComparison OpNotEqual vm
    = Returns None (booleanResult vm (bool_decide (a <> b)))
  /\ executeComparison OpGreaterThan vm
    = Returns None (booleanResult vm (bool_decide (a > b))).
Proof.
  intros Hd Hok (pa & pb & Hl & Hr).
  pose proof (index_Some_range _ _ _ Hl) as Hrange.
  pose proof (eqb_decide a b) as Heq.
  pose proof (neqb_decide a b) as Hne.
  pose proof (gtb_decide a b) as Hgt.
  repeat split;
    unfold executeComparison;
    rewrite (pop_pop vm _ _ _ Hr Hl);
    unfold bind at 1; cbn [typeOf ret Type_];
    rewrite String.eqb_refl;
    unfold bind at 1; unfold bind at 1; cbn [typeOf ret Type_];
    rewrite String.eqb_refl;
    unfold executeIntegerComparison;
    unfold bind at 1; cbn [integerValue ret];
    unfold bind at 1; cbn [integerValue ret];
    decide_opcodes Hd;
    rewrite ?Hne, ?Hgt, ?Heq;
    (apply push_boolean; [assumption | lia]).
Qed.

Lemma comparison_kinds_other {A} (vm : VM) (pl pr : addr) (dl dr : Data)
    (k : bool -> M A) :
  ~ bothInteger dl dr ->
  (leftType <- typeOf (Ptr pl dl) ;;
   bothInt <-
     (if String.eqb leftType INTEGER_OBJ then
        rightType <- typeOf (Ptr pr dr) ;;
        ret (String.eqb rightType INTEGER_OBJ)
      else ret false) ;;
   k bothInt) vm
  = k false vm.
Proof.
  intros Hnot. pose proof (bothInteger_false _ _ Hnot) as Hf.
  unfold bind, typeOf, ret.
  destruct (String.eqb (Type_ dl) INTEGER_OBJ); [| reflexivity].
  cbn [andb] in Hf. rewrite Hf. reflexivity.
Qed.

Lemma executeComparison_other
    (vm : VM) (pl pr : addr) (dl dr : Data) :
  distinct_opcodes code -> stack_ok vm ->
  index (stack vm) (sp vm - 2) = Some (Ptr pl dl) ->
  index (stack vm) (sp vm - 1) = Some (Ptr pr dr) ->
  ~ bothInteger dl dr ->
  executeComparison OpEqual vm
    = Returns None (booleanResult vm (iface_eq (Ptr pr dr) (Ptr pl dl)))
  /\ executeComparison OpNotEqual vm
    = Returns None
        (booleanResult vm (negb (iface_eq (Ptr pr dr) (Ptr pl dl))))
  /\ executeComparison OpGreaterThan vm
    = Returns (Some ("unknown operator " ++ fmt_d OpGreaterThan
                     ++ " (" ++ Type_ dl ++ " " ++ Type_ dr ++ ")")%string)
        (dropTop 2 (heap vm) vm).
Proof.
  intros Hd Hok Hl Hr Hnot.
  pose proof (index_Some_range _ _ _ Hl) as Hrange.
  repeat split;
    unfold executeComparison;
    rewrite (pop_pop vm _ _ _ Hr Hl);
    rewrite (comparison_kinds_other _ _ _ _ _ _ Hnot);
    decide_opcodes Hd.
  - apply push_boolean; [assumption | lia].
  - apply push_boolean; [assumption | lia].
  - reflexivity.
Qed.

(** A Boolean and an Integer are never the same object. *)
Lemma iface_eq_boolean_integer (pl pr : addr) (v : bool) (n : Z) :
  iface_eq (Ptr pl (Boolean v)) (Ptr pr (Integer n)) = false
  /\ iface_eq (Ptr pr (Integer n)) (Ptr pl (Boolean v)) = false.
Proof. split; reflexivity. Qed.

(** *** Unary operators *)

Lemma executeBangOperator_ok (operand : Object) (vm : VM) :
  stack_ok vm ->
  index (stack vm) (sp vm - 1) = Some operand ->
  executeBangOperator vm
  = Returns None (replaceTop 1 (bangOf operand) (heap vm) vm).
Proof.
  intros [Hlen Hsp] Htop.
  pose proof (index_Some_range _ _ _ Htop) as Hrange.
  unfold executeBangOperator, bangOf.
  unfold bind. rewrite (pop_ok operand) by assumption.
  destruct (iface_eq operand vm_True);
    [| destruct (iface_eq operand vm_False)];
    apply push_dropTop; lia.
Qed.

Lemma executeMinusOperator_integer (p : addr) (n : Z) (vm : VM) :
  stack_ok vm ->
  index (stack vm) (sp vm - 1) = Some (Ptr p (Integer n)) ->
  executeMinusOperator vm
  = Returns None
      (replaceTop 1 (Ptr (heap vm) (Integer (wrap64 (- n))))
         (N.succ (heap vm)) vm).
Proof.
  intros [Hlen Hsp] Htop.
  pose proof (index_Some_range _ _ _ Htop) as Hrange.
  unfold executeMinusOperator.
  unfold bind at 1. rewrite (pop_ok _ _ Htop).
  unfold bind at 1. cbn [typeOf ret Type_].
  rewrite String.eqb_refl. cbn [negb].
  unfold bind at 1. cbn [integerValue ret].
  apply newInteger_push; lia.
Qed.

Lemma executeMinusOperator_other (p : addr) (d : Data) (vm : VM) :
  index (stack vm) (sp vm - 1) = Some (Ptr p d) ->
  Type_ d <> INTEGER_OBJ ->
  executeMinusOperator vm
  = Returns (Some ("unsupported type for negation: " ++ Type_ d)%string)
      (dropTop 1 (heap vm) vm).
Proof.
  intros Htop Hkind. unfold executeMinusOperator.
  unfold bind at 1. rewrite (pop_ok _ _ Htop).
  unfold bind at 1. cbn [typeOf ret].
  destruct (String.eqb_spec (Type_ d) INTEGER_OBJ); [contradiction |].
  reflexivity.
Qed.

End Operators.

(** ** The loop of [Run] *)

Section Loop.
Context {code : CodePkg} {object : ObjectPkg}.

Lemma loop_end (fuel : nat) (ip : Z) (vm : VM) :
  Z.of_nat (length (instructions vm)) <= ip ->
  loop fuel ip vm = Some (Returns None vm).
Proof.
  intros Hip. destruct fuel; cbn [loop];
    destruct (Z.ltb_spec ip (Z.of_nat (length (instructions vm))));
    first [lia | reflexivity].
Qed.

Lemma loop_step (fuel : nat) (ip : Z) (vm : VM) :
  ip < Z.of_nat (length (instructions vm)) ->
  loop (S fuel) ip vm =
    match body ip vm with
    | Returns (Continue ip') vm' => loop fuel (ip' + 1) vm'
    | Returns (Return err) vm' => Some (Returns err vm')
    | Panics p => Some (Panics p)
    end.
Proof.
  intros Hip. cbn [loop].
  destruct (Z.ltb_spec ip (Z.of_nat (length (instructions vm))));
    [reflexivity | lia].
Qed.

Lemma advances_bind {A} (ip : Z) (m : M A) (k : A -> M Flow) :
  (forall a, advances ip (k a)) -> advances ip (bind m k).
Proof.
  intros Hk vm ip' vm'. unfold bind.
  destruct (m vm) as [a vm1 |]; [| discriminate]. apply Hk.
Qed.

Lemma advances_ret_Continue (ip ip' : Z) :
  ip <= ip' -> advances ip (ret (Continue ip')).
Proof. intros Hle vm ip'' vm' [= <- _]. exact Hle. Qed.

Lemma advances_ret_Return (ip : Z) (err : error) :
  advances ip (ret (Return err)).
Proof. intros vm ip' vm'. discriminate. Qed.

Lemma advances_returnIfError (ip ip' : Z) (err : error) :
  ip <= ip' -> advances ip (ret (returnIfError ip' err)).
Proof.
  intros Hle. destruct err;
    [apply advances_ret_Return | apply advances_ret_Continue; exact Hle].
Qed.

Lemma advances_body (ip : Z) : advances ip (body ip).
Proof.
  unfold body, switch.
  repeat first
    [ apply advances_bind; intros ?
    | apply advances_returnIfError; lia
    | apply advances_ret_Continue; lia
    | apply advances_ret_Return
    | match goal with
      | |- advances _ (if ?b then _ else _) => destruct b
      | |- advances _ (match ?e with Some _ => _ | None => _ end) =>
          destruct e
      end ].
Qed.

(** The loop ends within as many iterations as bytes remain. *)
Lemma loop_enough_fuel (fuel : nat) :
  forall (ip : Z) (vm : VM),
    Z.of_nat (length (instructions vm)) - ip <= Z.of_nat fuel ->
    exists out, loop fuel ip vm = Some out.
Proof.
  induction fuel as [| fuel IH]; intros ip vm Hfuel.
  - exists (Returns None vm). apply loop_end. lia.
  - destruct (Z.lt_ge_cases ip (Z.of_nat (length (instructions vm))))
      as [Hlt | Hge].
    + rewrite loop_step by assumption.
      destruct (body ip vm) as [[ip' | err] vm' |] eqn:Hbody.
      * pose proof (advances_body ip vm ip' vm' Hbody) as Hadv.
        destruct (framed_body ip vm _ vm' Hbody) as (Hins & _).
        apply IH. rewrite Hins. lia.
      * eexists. reflexivity.
      * eexists. reflexivity.
    + exists (Returns None vm). apply loop_end. lia.
Qed.

(** More fuel than needed changes nothing. *)
Lemma loop_fuel_irrelevant (fuel : nat) :
  forall (fuel' : nat) (ip : Z) (vm : VM) (out : Outcome error),
    loop fuel ip vm = Some out -> (fuel <= fuel')%nat ->
    loop fuel' ip vm = Some out.
Proof.
  induction fuel as [| fuel IH]; intros fuel' ip vm out Hout Hle.
  - cbn [loop] in Hout.
    destruct (Z.ltb_spec ip (Z.of_nat (length (instructions vm))));
      [discriminate |].
    rewrite loop_end by lia. exact Hout.
  - destruct (Z.lt_ge_cases ip (Z.of_nat (length (instructions vm))))
      as [Hlt | Hge].
    + destruct fuel' as [| fuel']; [lia |].
      rewrite loop_step in Hout |- * by assumption.
      destruct (body ip vm) as [[ip' | err] vm' |]; try exact Hout.
      apply IH; [exact Hout | lia].
    + rewrite loop_end in Hout |- * by lia. exact Hout.
Qed.

(** [Run] returns or panics: the loop never needs more iterations than
    there are bytes in the instruction stream. *)
Lemma Run_terminates (vm : VM) : exists out, Run vm = Some out.
Proof. unfold Run. apply loop_enough_fuel. lia. Qed.

Lemma reaches_frame (vm0 : VM) (ip : Z) (vm : VM) :
  reaches vm0 ip vm -> frame vm0 vm /\ 0 <= ip.
Proof.
  induction 1 as [| ip ip' vm vm' Hreach [IHf IHip] Hlt Hbody].
  - split; [apply frame_refl | lia].
  - split.
    + eapply frame_trans; [exact IHf | eapply framed_body; exact Hbody].
    + pose proof (advances_body ip vm ip' vm' Hbody). lia.
Qed.

(** From a state the loop reaches, [Run] continues as the loop does. *)
Lemma reaches_Run (vm0 : VM) (ip : Z) (vm : VM) :
  reaches vm0 ip vm ->
  forall (fuel : nat) (out : Outcome error),
    loop fuel ip vm = Some out -> Run vm0 = Some out.
Proof.
  induction 1 as [| ip ip' vm vm' Hreach IH Hlt Hbody]; intros fuel out Hout.
  - destruct (Run_terminates vm0) as [out' Hrun].
    unfold Run in *.
    pose proof (loop_fuel_irrelevant _ (max fuel (length (instructions vm0)))
                  _ _ _ Hout ltac:(lia)) as H1.
    pose proof (loop_fuel_irrelevant _ (max fuel (length (instructions vm0)))
                  _ _ _ Hrun ltac:(lia)) as H2.
    congruence.
  - apply (IH (S fuel)). rewrite loop_step by assumption.
    rewrite Hbody. exact Hout.
Qed.

End Loop.

(** * The properties of the machine *)

Section Properties.
Context {code : CodePkg} {object : ObjectPkg}.

(** C2 (as amended). With Integer [a] pushed first and Integer [b] pushed
    last, a binary opcode pops [b] (the right operand) before [a], and the
    machine continues with both replaced by a new Integer: add gives [a+b],
    subtract [a-b], multiply [a*b] and, for [b] nonzero, divide gives the
    quotient truncated toward zero, each reduced to 64 bits two's
    complement.  The reduced quotient is the exact quotient for every pair
    but [a = -2^63], [b = -1], where it is [-2^63]. *)
Theorem binary_opcodes_on_integers
    (vm : VM) (ip : Z) (op : Opcode) (pa pb : addr) (a b : Z)
    (Hd : distinct_opcodes code) (Hok : stack_ok vm)
    (Hop : index (instructions vm) ip = Some op)
    (Hleft : index (stack vm) (sp vm - 2) = Some (Ptr pa (Integer a)))
    (Hright : index (stack vm) (sp vm - 1) = Some (Ptr pb (Integer b)))
    (Ha : int64_range a) (Hb : int64_range b) :
  (right <- pop ;; left <- pop ;; ret (left, right)) vm
    = Returns (Ptr pa (Integer a), Ptr pb (Integer b)) (dropTop 2 (heap vm) vm)
  /\ (op = OpAdd ->
      body ip vm = Returns (Continue ip) (integerResult vm (wrap64 (a + b))))
  /\ (op = OpSub ->
      body ip vm = Returns (Continue ip) (integerResult vm (wrap64 (a - b))))
  /\ (op = OpMul ->
      body ip vm = Returns (Continue ip) (integerResult vm (wrap64 (a * b))))
  /\ (op = OpDiv -> b <> 0 ->
      body ip vm = Returns (Continue ip) (integerResult vm (wrap64 (a ÷ b)))
      /\ (~ (a = - 2 ^ 63 /\ b = -1) -> wrap64 (a ÷ b) = a ÷ b)
      /\ (a = - 2 ^ 63 -> b = -1 -> wrap64 (a ÷ b) = - 2 ^ 63)).
Proof.
  assert (Hops : integerOperands vm a b) by (exists pa, pb; auto).
  destruct (executeBinaryOperation_arith vm a b Hd Hok Hops)
    as (Hadd & Hsub & Hmul & Hdiv & _).
  assert (Hbody : forall op', op = op' -> isBinaryOp op' ->
            forall v, executeBinaryOperation op' vm
                      = Returns None (integerResult vm v) ->
            body ip vm = Returns (Continue ip) (integerResult vm v)).
  { intros op' -> Hbin v Hexec.
    rewrite (body_binary ip vm op' Hd Hop Hbin).
    unfold bind. rewrite Hexec. reflexivity. }
  split; [exact (pop_pop vm _ _ (fun r l => ret (l, r)) Hright Hleft) |].
  unfold isBinaryOp in Hbody.
  split; [intros E; apply (Hbody _ E); auto |].
  split; [intros E; apply (Hbody _ E); auto |].
  split; [intros E; apply (Hbody _ E); auto |].
  intros E Hb0. split; [apply (Hbody _ E); auto 6 |]. split.
  - intros Hne. apply wrap64_id. apply quot_int64_range; assumption.
  - intros -> ->. reflexivity.
Qed.

End Properties.

Lemma binary_opcodes_on_integers_witness :
  let vm := loaded (mkBytecode [3] []) 4%N
              [Ptr 2%N (Integer 5); Ptr 3%N (Integer 7)] in
  @body code0 object0 0 vm
  = Returns (Continue 0) (integerResult vm (wrap64 (5 - 7))).
Proof.
  intros vm.
  apply (@binary_opcodes_on_integers code0 object0 vm 0 3 2%N 3%N 5 7).
  - apply (bool_decide_unpack _). vm_compute. exact I.
  - split; [reflexivity | cbn; unfold StackSize; lia].
  - reflexivity.
  - reflexivity.
  - reflexivity.
  - unfold int64_range. lia.
  - unfold int64_range. lia.
  - reflexivity.
Defined.

(** C2 (as stated) fails for the divide opcode on [-2^63] and [-1]: the
    quotient truncated toward zero is [2^63], the machine pushes [-2^63]. *)
Lemma divide_overflow_counterexample :
  let a := - 2 ^ 63 in
  let b := -1 in
  let vm := loaded (mkBytecode [5] []) 4%N
              [Ptr 2%N (Integer a); Ptr 3%N (Integer b)] in
  int64_range a /\ int64_range b /\ b <> 0
  /\ @body code0 object0 0 vm
     = Returns (Continue 0) (integerResult vm (- 2 ^ 63))
  /\ - 2 ^ 63 <> a ÷ b.
Proof.
  cbv zeta. unfold int64_range.
  split; [lia |]. split; [lia |]. split; [lia |].
  split; [vm_compute; reflexivity | vm_compute; discriminate].
Qed.

(** *** Identity of objects

    Go's [==] on two non-nil objects holds of an object and itself and of
    no two objects at different addresses or of different kinds. *)

Section Identity.
Context {object : ObjectPkg}.

Lemma iface_eq_same (p : addr) (d : Data) :
  iface_eq (Ptr p d) (Ptr p d) = true.
Proof.
  unfold iface_eq. rewrite N.eqb_refl, andb_true_r.
  destruct d; cbn [same_dynamic_type]; [reflexivity | reflexivity |].
  apply String.eqb_refl.
Qed.

Lemma iface_eq_other_address (pl pr : addr) (dl dr : Data) :
  pl <> pr -> iface_eq (Ptr pr dr) (Ptr pl dl) = false.
Proof.
  intros Hne. unfold iface_eq.
  destruct (N.eqb_spec pr pl) as [E | _]; [congruence |].
  apply andb_false_r.
Qed.

Lemma iface_eq_other_kind (pl pr : addr) (dl dr : Data) :
  Type_ dl <> Type_ dr -> iface_eq (Ptr pr dr) (Ptr pl dl) = false.
Proof.
  intros Hne. unfold iface_eq.
  assert (Hty : same_dynamic_type dr dl = false).
  { destruct dr, dl; cbn [same_dynamic_type Type_] in *;
      try reflexivity; try congruence.
    destruct (String.eqb_spec kind kind0); [congruence | reflexivity]. }
  rewrite Hty. reflexivity.
Qed.

End Identity.

Section Comparisons.
Context {code : CodePkg} {object : ObjectPkg}.

(** C3. A comparison opcode pops the right operand, then the left one.
    On two Integers [a] and [b], equal, not-equal and greater-than push the
    singleton [True] exactly when [a = b], [a <> b] and [a > b] hold, and
    the singleton [False] otherwise; nothing is allocated.  On two objects
    whose kinds are not both Integer, equal pushes the singleton for "same
    object" and not-equal the one for "not the same object", so a Boolean
    against an Integer gives [False] for equal and [True] for not-equal;
    greater-than returns the error that names the operator and both
    kinds.  "Same object" is identity: an object compared with itself gives
    [True] for equal and [False] for not-equal ([True == True],
    [False == False]), and two objects at different addresses or of
    different kinds give [False] for equal and [True] for not-equal
    ([True == False]). *)
Theorem comparison_opcodes
    (vm : VM) (ip : Z) (op : Opcode) (left right : Object)
    (Hd : distinct_opcodes code) (Hkinds : INTEGER_OBJ <> BOOLEAN_OBJ)
    (Hok : stack_ok vm)
    (Hop : index (instructions vm) ip = Some op)
    (Hleft : index (stack vm) (sp vm - 2) = Some left)
    (Hright : index (stack vm) (sp vm - 1) = Some right) :
  (forall pa pb a b,
     left = Ptr pa (Integer a) -> right = Ptr pb (Integer b) ->
     (op = OpEqual ->
      body ip vm
      = Returns (Continue ip) (booleanResult vm (bool_decide (a = b))))
     /\ (op = OpNotEqual ->
         body ip vm
         = Returns (Continue ip) (booleanResult vm (bool_decide (a <> b))))
     /\ (op = OpGreaterThan ->
         body ip vm
         = Returns (Continue ip) (booleanResult vm (bool_decide (a > b)))))
  /\ (forall pl pr dl dr,
        left = Ptr pl dl -> right = Ptr pr dr -> ~ bothInteger dl dr ->
        (op = OpEqual ->
         body ip vm
         = Returns (Continue ip) (booleanResult vm (iface_eq right left)))
        /\ (op = OpNotEqual ->
            body ip vm
            = Returns (Continue ip)
                (booleanResult vm (negb (iface_eq right left))))
        /\ (op = OpGreaterThan ->
            body ip vm
            = Returns
                (Return (Some ("unknown operator " ++ fmt_d op ++ " ("
                               ++ Type_ dl ++ " " ++ Type_ dr ++ ")")%string))
                (dropTop 2 (heap vm) vm)))
  /\ (forall pv pn v n,
        (left = Ptr pv (Boolean v) /\ right = Ptr pn (Integer n))
        \/ (left = Ptr pn (Integer n) /\ right = Ptr pv (Boolean v)) ->
        (op = OpEqual ->
         body ip vm = Returns (Continue ip) (booleanResult vm false))
        /\ (op = OpNotEqual ->
            body ip vm = Returns (Continue ip) (booleanResult vm true)))
  /\ (forall p d,
        left = Ptr p d -> right = Ptr p d -> Type_ d <> INTEGER_OBJ ->
        (op = OpEqual ->
         body ip vm = Returns (Continue ip) (booleanResult vm true))
        /\ (op = OpNotEqual ->
            body ip vm = Returns (Continue ip) (booleanResult vm false)))
  /\ (forall pl pr dl dr,
        left = Ptr pl dl -> right = Ptr pr dr -> ~ bothInteger dl dr ->
        pl <> pr \/ Type_ dl <> Type_ dr ->
        (op = OpEqual ->
         body ip vm = Returns (Continue ip) (booleanResult vm false))
        /\ (op = OpNotEqual ->
            body ip vm = Returns (Continue ip) (booleanResult vm true))).
Proof.
  assert (Hbody : forall op' err vm', op = op' ->
            executeComparison op' vm = Returns err vm' ->
            isComparisonOp op' ->
            body ip vm = Returns (returnIfError ip err) vm').
  { intros op' err vm' -> Hexec Hcmp.
    rewrite (body_comparison ip vm op' Hd Hop Hcmp).
    unfold bind. rewrite Hexec. reflexivity. }
  unfold isComparisonOp in Hbody.
  assert (Hother : forall pl pr dl dr,
    left = Ptr pl dl -> right = Ptr pr dr -> ~ bothInteger dl dr ->
    (op = OpEqual ->
     body ip vm
     = Returns (Continue ip) (booleanResult vm (iface_eq right left)))
    /\ (op = OpNotEqual ->
        body ip vm
        = Returns (Continue ip)
            (booleanResult vm (negb (iface_eq right left))))
    /\ (op = OpGreaterThan ->
        body ip vm
        = Returns
            (Return (Some ("unknown operator " ++ fmt_d op ++ " ("
                           ++ Type_ dl ++ " " ++ Type_ dr ++ ")")%string))
            (dropTop 2 (heap vm) vm))).
  { intros pl pr dl dr -> -> Hnot.
    destruct (executeComparison_other vm pl pr dl dr Hd Hok Hleft Hright Hnot)
      as (Heq & Hne & Hgt).
    split; [intros E; apply (Hbody _ _ _ E Heq); auto |].
    split; [intros E; apply (Hbody _ _ _ E Hne); auto |].
    intros E. rewrite E. apply (Hbody _ _ _ E Hgt); auto. }
  split; [| split; [exact Hother |]]; [| split; [| split]].
  - intros pa pb a b -> ->.
    assert (Hops : integerOperands vm a b) by (exists pa, pb; auto).
    destruct (executeComparison_integers vm a b Hd Hok Hops)
      as (Heq & Hne & Hgt).
    split; [intros E; apply (Hbody _ _ _ E Heq); auto |].
    split; [intros E; apply (Hbody _ _ _ E Hne); auto |].
    intros E; apply (Hbody _ _ _ E Hgt); auto.
  - intros pv pn v n [[-> ->] | [-> ->]].
    + destruct (Hother pv pn (Boolean v) (Integer n) eq_refl eq_refl)
        as (Heq & Hne & _).
      { unfold bothInteger. cbn [Type_]. intros [E _]. auto. }
      split; assumption.
    + destruct (Hother pn pv (Integer n) (Boolean v) eq_refl eq_refl)
        as (Heq & Hne & _).
      { unfold bothInteger. cbn [Type_]. intros [_ E]. auto. }
      split; assumption.
  - intros p d El Er Hkind.
    destruct (Hother p p d d El Er) as (Heq & Hne & _).
    { unfold bothInteger. tauto. }
    rewrite El, Er in Heq, Hne. rewrite iface_eq_same in Heq, Hne.
    split; assumption.
  - intros pl pr dl dr El Er Hnot Hdiff.
    destruct (Hother pl pr dl dr El Er Hnot) as (Heq & Hne & _).
    assert (Hid : iface_eq right left = false).
    { rewrite El, Er. destruct Hdiff as [Haddr | Hkind];
        [apply iface_eq_other_address | apply iface_eq_other_kind];
        assumption. }
    rewrite Hid in Heq, Hne. split; assumption.
Qed.

End Comparisons.

Lemma comparison_opcodes_witness :
  let ints := loaded (mkBytecode [10] []) 4%N
                [Ptr 2%N (Integer 1); Ptr 3%N (Integer 2)] in
  let same := loaded (mkBytecode [8] []) 2%N [vm_True; vm_True] in
  let differ := loaded (mkBytecode [9] []) 2%N [vm_True; vm_False] in
  let mixed := loaded (mkBytecode [8] []) 3%N [vm_True; Ptr 2%N (Integer 1)] in
  let bools := loaded (mkBytecode [10] []) 2%N [vm_True; vm_False] in
  @body code0 object0 0 ints = Returns (Continue 0) (booleanResult ints false)
  /\ @body code0 object0 0 same
     = Returns (Continue 0) (booleanResult same true)
  /\ @body code0 object0 0 differ
     = Returns (Continue 0) (booleanResult differ true)
  /\ @body code0 object0 0 mixed
     = Returns (Continue 0) (booleanResult mixed false)
  /\ @body code0 object0 0 bools
     = Returns (Return (Some "unknown operator 10 (BOOLEAN BOOLEAN)"%string))
         (dropTop 2 2%N bools).
Proof.
  intros ints same differ mixed bools.
  split; [| split; [| split; [| split]]].
  - refine (proj2 (proj2 (proj1
      (@comparison_opcodes code0 object0 ints 0 10 (Ptr 2%N (Integer 1))
         (Ptr 3%N (Integer 2)) _ _ _ _ _ _) 2%N 3%N 1 2 eq_refl eq_refl))
      eq_refl).
    + apply (bool_decide_unpack _). vm_compute. exact I.
    + discriminate.
    + split; [reflexivity | cbn; unfold StackSize; lia].
    + reflexivity.
    + reflexivity.
    + reflexivity.
  - refine (proj1 (proj1 (proj2 (proj2 (proj2
      (@comparison_opcodes code0 object0 same 0 8 vm_True vm_True
         _ _ _ _ _ _)))) 0%N (Boolean true) eq_refl eq_refl _) eq_refl).
    + apply (bool_decide_unpack _). vm_compute. exact I.
    + discriminate.
    + split; [reflexivity | cbn; unfold StackSize; lia].
    + reflexivity.
    + reflexivity.
    + reflexivity.
    + discriminate.
  - refine (proj2 (proj2 (proj2 (proj2 (proj2
      (@comparison_opcodes code0 object0 differ 0 9 vm_True vm_False
         _ _ _ _ _ _)))) 0%N 1%N (Boolean true) (Boolean false)
      eq_refl eq_refl _ _) eq_refl).
    + apply (bool_decide_unpack _). vm_compute. exact I.
    + discriminate.
    + split; [reflexivity | cbn; unfold StackSize; lia].
    + reflexivity.
    + reflexivity.
    + reflexivity.
    + unfold bothInteger. cbn. intros [E _]. discriminate E.
    + left. discriminate.
  - refine (proj1 (proj1 (proj2 (proj2
      (@comparison_opcodes code0 object0 mixed 0 8 vm_True
         (Ptr 2%N (Integer 1)) _ _ _ _ _ _)))
      0%N 2%N true 1 (or_introl (conj eq_refl eq_refl))) eq_refl).
    + apply (bool_decide_unpack _). vm_compute. exact I.
    + discriminate.
    + split; [reflexivity | cbn; unfold StackSize; lia].
    + reflexivity.
    + reflexivity.
    + reflexivity.
  - refine (proj2 (proj2 (proj1 (proj2
      (@comparison_opcodes code0 object0 bools 0 10 vm_True vm_False
         _ _ _ _ _ _)) 0%N 1%N (Boolean true) (Boolean false)
      eq_refl eq_refl _)) eq_refl).
    + apply (bool_decide_unpack _). vm_compute. exact I.
    + discriminate.
    + split; [reflexivity | cbn; unfold StackSize; lia].
    + reflexivity.
    + reflexivity.
    + reflexivity.
    + unfold bothInteger. cbn. intros [E _]. discriminate E.
Defined.

Section Unary.
Context {code : CodePkg} {object : ObjectPkg}.

(** C8. The bang opcode pops its operand and pushes, without error, the
    singleton [False] when the operand is the singleton [True], the
    singleton [True] when it is the singleton [False], and the singleton
    [False] when it is neither: nil, an object that is no Boolean, or a
    Boolean object that is neither of the two singletons.  "Is the
    singleton" is Go's [==], identity. *)
Theorem bang_opcode
    (vm : VM) (ip : Z) (operand : Object)
    (Hd : distinct_opcodes code) (Hok : stack_ok vm)
    (Hop : index (instructions vm) ip = Some OpBang)
    (Htop : index (stack vm) (sp vm - 1) = Some operand) :
  (operand = vm_True ->
   body ip vm = Returns (Continue ip) (replaceTop 1 vm_False (heap vm) vm))
  /\ (operand = vm_False ->
      body ip vm = Returns (Continue ip) (replaceTop 1 vm_True (heap vm) vm))
  /\ (operand = Nil ->
      body ip vm = Returns (Continue ip) (replaceTop 1 vm_False (heap vm) vm))
  /\ (forall p d,
        operand = Ptr p d -> (forall v, d <> Boolean v) ->
        body ip vm
        = Returns (Continue ip) (replaceTop 1 vm_False (heap vm) vm))
  /\ (forall p d,
        operand = Ptr p d ->
        (forall d', Ptr p d' <> vm_True) ->
        (forall d', Ptr p d' <> vm_False) ->
        body ip vm
        = Returns (Continue ip) (replaceTop 1 vm_False (heap vm) vm))
  /\ (iface_eq operand vm_True = true ->
      body ip vm = Returns (Continue ip) (replaceTop 1 vm_False (heap vm) vm))
  /\ (iface_eq operand vm_False = true ->
      body ip vm = Returns (Continue ip) (replaceTop 1 vm_True (heap vm) vm))
  /\ (iface_eq operand vm_True = false ->
      iface_eq operand vm_False = false ->
      body ip vm = Returns (Continue ip) (replaceTop 1 vm_False (heap vm) vm)).
Proof.
  assert (Hbody : body ip vm
            = Returns (Continue ip)
                (replaceTop 1 (bangOf operand) (heap vm) vm)).
  { rewrite (body_bang ip vm Hd Hop). unfold bind.
    rewrite (executeBangOperator_ok operand vm Hok Htop). reflexivity. }
  rewrite Hbody. unfold bangOf.
  split; [intros ->; reflexivity |].
  split; [intros ->; reflexivity |].
  split; [intros ->; reflexivity |].
  split.
  { intros p d -> Hnot.
    destruct d as [n | v | k];
      [reflexivity | destruct (Hnot v eq_refl) | reflexivity]. }
  split.
  { intros p d -> HnotTrue HnotFalse.
    assert (Hp0 : N.eqb p 0 = false).
    { apply N.eqb_neq. intros ->. apply (HnotTrue (Boolean true)).
      reflexivity. }
    assert (Hp1 : N.eqb p 1 = false).
    { apply N.eqb_neq. intros ->. apply (HnotFalse (Boolean false)).
      reflexivity. }
    unfold iface_eq, vm_True, vm_False.
    rewrite Hp0, Hp1, !andb_false_r. reflexivity. }
  split; [intros ->; reflexivity |]. split.
  - intros Hfalse.
    assert (Hnot : iface_eq operand vm_True = false).
    { destruct operand as [| p d]; [discriminate |].
      unfold vm_True, vm_False, iface_eq in *.
      apply andb_true_iff in Hfalse. destruct Hfalse as [Hty Haddr].
      apply N.eqb_eq in Haddr. subst p. rewrite andb_false_r. reflexivity. }
    rewrite Hnot, Hfalse. reflexivity.
  - intros -> ->. reflexivity.
Qed.

(** C9 (as amended). The minus opcode on an Integer [n] pushes, without
    error, a new Integer of value [-n] reduced to 64 bits two's complement:
    [-n] itself for every [n] but [-2^63], and [-2^63] for that one.  On an
    object of another kind it returns the error that names the kind, and
    [Run] returns that error. *)
Theorem minus_opcode
    (vm : VM) (ip : Z) (p : addr) (d : Data)
    (Hd : distinct_opcodes code) (Hok : stack_ok vm)
    (Hop : index (instructions vm) ip = Some OpMinus)
    (Htop : index (stack vm) (sp vm - 1) = Some (Ptr p d)) :
  (forall n, d = Integer n -> int64_range n ->
     body ip vm
     = Returns (Continue ip)
         (replaceTop 1 (Ptr (heap vm) (Integer (wrap64 (- n))))
            (N.succ (heap vm)) vm)
     /\ (n <> - 2 ^ 63 -> wrap64 (- n) = - n)
     /\ (n = - 2 ^ 63 -> wrap64 (- n) = - 2 ^ 63))
  /\ (Type_ d <> INTEGER_OBJ ->
      let err := Some ("unsupported type for negation: " ++ Type_ d)%string in
      executeMinusOperator vm = Returns err (dropTop 1 (heap vm) vm)
      /\ (forall fuel,
            loop (S fuel) ip vm = Some (Returns err (dropTop 1 (heap vm) vm)))
      /\ (forall vm0,
            reaches vm0 ip vm ->
            Run vm0 = Some (Returns err (dropTop 1 (heap vm) vm)))).
Proof.
  pose proof (index_Some_range _ _ _ Hop) as Hip.
  split.
  - intros n -> Hn. split; [| split].
    + rewrite (body_minus ip vm Hd Hop). unfold bind.
      rewrite (executeMinusOperator_integer p n vm Hok Htop). reflexivity.
    + intros Hne. apply wrap64_id. unfold int64_range in *. lia.
    + intros ->. reflexivity.
  - intros Hkind err.
    pose proof (executeMinusOperator_other p d vm Htop Hkind) as Hexec.
    assert (Hloop : forall fuel,
              loop (S fuel) ip vm
              = Some (Returns err (dropTop 1 (heap vm) vm))).
    { intros fuel. rewrite loop_step by lia.
      rewrite (body_minus ip vm Hd Hop). unfold bind.
      rewrite Hexec. reflexivity. }
    split; [exact Hexec |]. split; [exact Hloop |].
    intros vm0 Hreach. apply (reaches_Run vm0 ip vm Hreach 1). apply Hloop.
Qed.

End Unary.

Lemma bang_opcode_witness :
  let onTrue := loaded (mkBytecode [12] []) 2%N [vm_True] in
  let onFalse := loaded (mkBytecode [12] []) 2%N [vm_False] in
  let onFive := loaded (mkBytecode [12] []) 3%N [Ptr 2%N (Integer 5)] in
  @body code0 object0 0 onTrue
  = Returns (Continue 0) (replaceTop 1 vm_False 2%N onTrue)
  /\ @body code0 object0 0 onFalse
     = Returns (Continue 0) (replaceTop 1 vm_True 2%N onFalse)
  /\ @body code0 object0 0 onFive
     = Returns (Continue 0) (replaceTop 1 vm_False 3%N onFive).
Proof.
  intros onTrue onFalse onFive. split; [| split].
  - refine (proj1
      (@bang_opcode code0 object0 onTrue 0 vm_True _ _ _ _) eq_refl).
    + apply (bool_decide_unpack _). vm_compute. exact I.
    + split; [reflexivity | cbn; unfold StackSize; lia].
    + reflexivity.
    + reflexivity.
  - refine (proj1 (proj2
      (@bang_opcode code0 object0 onFalse 0 vm_False _ _ _ _)) eq_refl).
    + apply (bool_decide_unpack _). vm_compute. exact I.
    + split; [reflexivity | cbn; unfold StackSize; lia].
    + reflexivity.
    + reflexivity.
  - refine (proj1 (proj2 (proj2 (proj2
      (@bang_opcode code0 object0 onFive 0 (Ptr 2%N (Integer 5)) _ _ _ _))))
      2%N (Integer 5) eq_refl _).
    + apply (bool_decide_unpack _). vm_compute. exact I.
    + split; [reflexivity | cbn; unfold StackSize; lia].
    + reflexivity.
    + reflexivity.
    + intros v E. discriminate E.
Defined.

Lemma minus_opcode_witness :
  let vm := loaded (mkBytecode [11] []) 3%N [Ptr 2%N (Integer 5)] in
  @body code0 object0 0 vm
  = Returns (Continue 0)
      (replaceTop 1 (Ptr 3%N (Integer (wrap64 (- (5))))) 4%N vm).
Proof.
  intros vm.
  refine (proj1 (proj1
    (@minus_opcode code0 object0 vm 0 2%N (Integer 5) _ _ _ _)
    5 eq_refl _)).
  - apply (bool_decide_unpack _). vm_compute. exact I.
  - split; [reflexivity | cbn; unfold StackSize; lia].
  - reflexivity.
  - reflexivity.
  - unfold int64_range. lia.
Defined.

(** C9 (as stated) fails on the Integer [-2^63]: the value pushed is
    [-2^63], which is not [-n]. *)
Lemma minus_overflow_counterexample :
  let n := - 2 ^ 63 in
  let vm := loaded (mkBytecode [11] []) 3%N [Ptr 2%N (Integer n)] in
  int64_range n
  /\ @body code0 object0 0 vm
     = Returns (Continue 0) (replaceTop 1 (Ptr 3%N (Integer n)) 4%N vm)
  /\ n <> - n.
Proof.
  cbv zeta. unfold int64_range. split; [lia |].
  split; [vm_compute; reflexivity | lia].
Qed.

Section Failures.
Context {code : CodePkg} {object : ObjectPkg}.

(** C7. The divide opcode on two Integers with a zero right operand
    returns no error of the machine's own: the division panics (Go's
    integer divide by zero), and so does [Run]. *)
Theorem divide_by_zero_panics
    (vm : VM) (ip : Z) (pa pb : addr) (a : Z)
    (Hd : distinct_opcodes code) (Hok : stack_ok vm)
    (Hop : index (instructions vm) ip = Some OpDiv)
    (Hleft : index (stack vm) (sp vm - 2) = Some (Ptr pa (Integer a)))
    (Hright : index (stack vm) (sp vm - 1) = Some (Ptr pb (Integer 0))) :
  executeBinaryOperation OpDiv vm = Panics IntegerDivideByZero
  /\ body ip vm = Panics IntegerDivideByZero
  /\ (forall fuel, loop (S fuel) ip vm = Some (Panics IntegerDivideByZero))
  /\ (forall vm0,
        reaches vm0 ip vm -> Run vm0 = Some (Panics IntegerDivideByZero)).
Proof.
  pose proof (index_Some_range _ _ _ Hop) as Hip.
  assert (Hops : integerOperands vm a 0) by (exists pa, pb; auto).
  destruct (executeBinaryOperation_arith vm a 0 Hd Hok Hops)
    as (_ & _ & _ & _ & Hdiv).
  specialize (Hdiv eq_refl).
  assert (Hbody : body ip vm = Panics IntegerDivideByZero).
  { rewrite (body_binary ip vm OpDiv Hd Hop) by (unfold isBinaryOp; auto).
    unfold bind. rewrite Hdiv. reflexivity. }
  assert (Hloop : forall fuel,
            loop (S fuel) ip vm = Some (Panics IntegerDivideByZero)).
  { intros fuel. rewrite loop_step by lia. rewrite Hbody. reflexivity. }
  split; [exact Hdiv |]. split; [exact Hbody |]. split; [exact Hloop |].
  intros vm0 Hreach. apply (reaches_Run vm0 ip vm Hreach 1). apply Hloop.
Qed.

(** C4: a binary arithmetic opcode on two objects whose kinds are not both
    Integer.  [executeBinaryOperation] returns the type error that names
    both kinds, but the loop of [Run] answers it with [return nil]: [Run]
    stops there and reports success. *)
Theorem binary_type_error_not_reported
    (vm : VM) (ip : Z) (op : Opcode) (pl pr : addr) (dl dr : Data)
    (Hd : distinct_opcodes code)
    (Hop : index (instructions vm) ip = Some op)
    (Hbin : isBinaryOp op)
    (Hleft : index (stack vm) (sp vm - 2) = Some (Ptr pl dl))
    (Hright : index (stack vm) (sp vm - 1) = Some (Ptr pr dr))
    (Hnot : ~ bothInteger dl dr) :
  executeBinaryOperation op vm
  = Returns (Some ("unsupported types for binary operation: "
                   ++ Type_ dl ++ " " ++ Type_ dr)%string)
      (dropTop 2 (heap vm) vm)
  /\ body ip vm = Returns (Return None) (dropTop 2 (heap vm) vm)
  /\ (forall fuel,
        loop (S fuel) ip vm = Some (Returns None (dropTop 2 (heap vm) vm)))
  /\ (forall vm0,
        reaches vm0 ip vm ->
        Run vm0 = Some (Returns None (dropTop 2 (heap vm) vm))).
Proof.
  pose proof (index_Some_range _ _ _ Hop) as Hip.
  pose proof (executeBinaryOperation_unsupported op vm pl pr dl dr
                Hleft Hright Hnot) as Hexec.
  assert (Hbody : body ip vm = Returns (Return None) (dropTop 2 (heap vm) vm)).
  { rewrite (body_binary ip vm op Hd Hop Hbin).
    unfold bind. rewrite Hexec. reflexivity. }
  assert (Hloop : forall fuel,
            loop (S fuel) ip vm
            = Some (Returns None (dropTop 2 (heap vm) vm))).
  { intros fuel. rewrite loop_step by lia. rewrite Hbody. reflexivity. }
  split; [exact Hexec |]. split; [exact Hbody |]. split; [exact Hloop |].
  intros vm0 Hreach. apply (reaches_Run vm0 ip vm Hreach 1). apply Hloop.
Qed.

End Failures.

Lemma divide_by_zero_panics_witness :
  let vm := loaded (mkBytecode [5] []) 4%N
              [Ptr 2%N (Integer 7); Ptr 3%N (Integer 0)] in
  @Run code0 object0 vm = Some (Panics IntegerDivideByZero).
Proof.
  intros vm.
  refine (proj2 (proj2 (proj2
    (@divide_by_zero_panics code0 object0 vm 0 2%N 3%N 7 _ _ _ _ _)))
    vm (reaches_start vm)).
  - apply (bool_decide_unpack _). vm_compute. exact I.
  - split; [reflexivity | cbn; unfold StackSize; lia].
  - reflexivity.
  - reflexivity.
  - reflexivity.
Defined.

Lemma binary_type_error_not_reported_witness :
  let vm := loaded (mkBytecode [1] []) 2%N [vm_True; vm_True] in
  @executeBinaryOperation code0 object0 1 vm
  = Returns (Some "unsupported types for binary operation: BOOLEAN BOOLEAN"%string)
      (dropTop 2 2%N vm)
  /\ @Run code0 object0 vm = Some (Returns None (dropTop 2 2%N vm)).
Proof.
  intros vm.
  assert (H := @binary_type_error_not_reported code0 object0 vm 0 1
                 0%N 0%N (Boolean true) (Boolean true)).
  refine ((fun H' => conj (proj1 H')
             (proj2 (proj2 (proj2 H')) vm (reaches_start vm)))
          (H _ _ _ _ _ _)).
  - apply (bool_decide_unpack _). vm_compute. exact I.
  - reflexivity.
  - left. reflexivity.
  - reflexivity.
  - reflexivity.
  - unfold bothInteger. cbn. intros [E _]. discriminate E.
Defined.

(** C1: the program load-true, load-true, add, load-true.  The add fails
    with a type error; [Run] returns nil, not that error, and the machine is
    left with both operands popped and the last instruction not executed. *)
Theorem Run_returns_nil_on_binary_error :
  let vm0 := New (mkBytecode [6; 6; 1; 6] []) 2%N in
  let vm2 := replaceTop 0 vm_True 2%N (replaceTop 0 vm_True 2%N vm0) in
  @reaches code0 object0 vm0 2 vm2
  /\ @executeBinaryOperation code0 object0 1 vm2
     = Returns
         (Some "unsupported types for binary operation: BOOLEAN BOOLEAN"%string)
         (dropTop 2 2%N vm2)
  /\ @Run code0 object0 vm0 = Some (Returns None (dropTop 2 2%N vm2))
  /\ sp (dropTop 2 2%N vm2) = 0.
Proof.
  intros vm0 vm2. split; [| split; [| split]].
  - apply (@reaches_next code0 object0 vm0 1 1
             (replaceTop 0 vm_True 2%N vm0) vm2).
    + apply (@reaches_next code0 object0 vm0 0 0 vm0
               (replaceTop 0 vm_True 2%N vm0)).
      * apply reaches_start.
      * reflexivity.
      * vm_compute. reflexivity.
    + reflexivity.
    + vm_compute. reflexivity.
  - vm_compute. reflexivity.
  - vm_compute. reflexivity.
  - reflexivity.
Qed.

Section Unknown.
Context {code : CodePkg} {object : ObjectPkg}.





End Unknown.



Section LastPopped.
Context {code : CodePkg} {object : ObjectPkg}.

(** Whatever [Run] returns, the instruction stream, the constant pool and
    the length of the stack are as before, and [sp] is still inside the
    stack. *)
Lemma loop_frame (fuel : nat) :
  forall (ip : Z) (vm : VM) (err : error) (vm' : VM),
    loop fuel ip vm = Some (Returns err vm') -> frame vm vm'.
Proof.
  induction fuel as [| fuel IH]; intros ip vm err vm' Hloop.
  - cbn [loop] in Hloop.
    destruct (ip <? Z.of_nat (length (instructions vm))); [discriminate |].
    injection Hloop as _ <-. apply frame_refl.
  - destruct (Z.lt_ge_cases ip (Z.of_nat (length (instructions vm))))
      as [Hlt | Hge].
    + rewrite loop_step in Hloop by assumption.
      destruct (body ip vm) as [[ip' | err'] vm1 |] eqn:Hbody.
      * eapply frame_trans; [eapply framed_body; exact Hbody |].
        eapply IH. exact Hloop.
      * injection Hloop as _ <-. eapply framed_body. exact Hbody.
      * discriminate.
    + rewrite loop_end in Hloop by lia.
      injection Hloop as _ <-. apply frame_refl.
Qed.

Lemma New_stack_ok (bytecode : Bytecode) (h : addr) : stack_ok (New bytecode h).
Proof. split; [reflexivity | cbn; unfold StackSize; lia]. Qed.

(** C5 (as amended).  [LastPoppedStackElement] returns the value at index
    [sp] of the stack array.  When the last instruction of the stream is a
    pop that the run executes on a top of stack [V], [Run] returns nil and
    [LastPoppedStackElement] then returns [V].  On the machine [Run] leaves
    behind, as on a new one, the read stays inside the array while
    [sp < StackSize] (on a new machine it returns the nil zero value); with
    the stack filled to capacity, [sp = StackSize], the read is out of
    range and panics. *)
Theorem LastPoppedStackElement_reads_slot_sp
    (vm0 vm : VM) (ip : Z) (V : Object)
    (Hd : distinct_opcodes code)
    (Hreach : reaches vm0 ip vm)
    (Hop : index (instructions vm) ip = Some OpPop)
    (Hlast : ip + 1 = Z.of_nat (length (instructions vm)))
    (Htop : index (stack vm) (sp vm - 1) = Some V) :
  (Run vm0 = Some (Returns None (dropTop 1 (heap vm) vm))
   /\ LastPoppedStackElement (dropTop 1 (heap vm) vm)
      = Returns V (dropTop 1 (heap vm) vm))
  /\ (forall vm' o,
        index (stack vm') (sp vm') = Some o ->
        LastPoppedStackElement vm' = Returns o vm')
  /\ (forall bytecode h,
        LastPoppedStackElement (New bytecode h) = Returns Nil (New bytecode h))
  /\ (forall bytecode h err vm',
        Run (New bytecode h) = Some (Returns err vm') ->
        stack_ok vm'
        /\ (sp vm' < StackSize ->
            exists o, LastPoppedStackElement vm' = Returns o vm')
        /\ (sp vm' = StackSize ->
            LastPoppedStackElement vm' = Panics IndexOutOfRange)).
Proof.
  split; [| split; [| split]].
  - split.
    + apply (reaches_Run vm0 ip vm Hreach 1).
      rewrite loop_step by lia.
      rewrite (body_pop ip vm Hd Hop). unfold bind.
      rewrite (pop_ok V vm Htop). cbn [ret].
      apply loop_end. cbn [dropTop instructions]. lia.
    + unfold LastPoppedStackElement. cbn [dropTop stack sp].
      rewrite Htop. reflexivity.
  - intros vm' o Ho. unfold LastPoppedStackElement. rewrite Ho. reflexivity.
  - intros bytecode h. reflexivity.
  - intros bytecode h err vm' Hrun.
    destruct (loop_frame _ _ _ _ _ Hrun) as (_ & _ & _ & Hok).
    specialize (Hok (New_stack_ok bytecode h)).
    destruct Hok as [Hlen Hsp]. split; [split; assumption |]. split.
    + intros Hlt. unfold LastPoppedStackElement.
      rewrite index_in_range by lia.
      destruct (lookup_lt_is_Some_2 (stack vm') (Z.to_nat (sp vm'))
                  ltac:(lia)) as [o Ho].
      exists o. rewrite Ho. reflexivity.
    + intros Heq. unfold LastPoppedStackElement.
      rewrite index_out_of_range by lia. reflexivity.
Qed.

End LastPopped.

Lemma LastPoppedStackElement_reads_slot_sp_witness :
  let vm0 := New (mkBytecode [6; 2] []) 2%N in
  let vm := replaceTop 0 vm_True 2%N vm0 in
  @Run code0 object0 vm0 = Some (Returns None (dropTop 1 2%N vm))
  /\ LastPoppedStackElement (dropTop 1 2%N vm)
     = Returns vm_True (dropTop 1 2%N vm).
Proof.
  intros vm0 vm.
  refine (proj1
    (@LastPoppedStackElement_reads_slot_sp code0 object0 vm0 vm 1 vm_True
       _ _ _ _ _)).
  - apply (bool_decide_unpack _). vm_compute. exact I.
  - apply (@reaches_next code0 object0 vm0 0 0 vm0 vm).
    + apply reaches_start.
    + reflexivity.
    + vm_compute. reflexivity.
  - reflexivity.
  - reflexivity.
  - reflexivity.
Defined.

(** C5 (as stated) fails on a run that fills the stack: after 2048
    load-true instructions [Run] returns nil, no pop has occurred, [sp] is
    [StackSize], and [LastPoppedStackElement] panics. *)
Lemma LastPoppedStackElement_full_stack_counterexample :
  exists vm',
    @Run code0 object0 (New (mkBytecode (replicate 2048 6) []) 2%N)
    = Some (Returns None vm')
    /\ sp vm' = StackSize
    /\ LastPoppedStackElement vm' = Panics IndexOutOfRange.
Proof.
  eexists. split; [vm_compute; reflexivity |].
  split; vm_compute; reflexivity.
Qed.

(** ** Where [Run] returns the error, and end-to-end runs *)

Section Reporting.
Context {code : CodePkg} {object : ObjectPkg}.

Lemma returnsItsError_bind {A} (m : M A) (k : A -> M Flow) :
  (forall a, returnsItsError (k a)) -> returnsItsError (bind m k).
Proof.
  intros Hk vm err vm'. unfold bind.
  destruct (m vm) as [a vm1 |]; [| discriminate]. apply Hk.
Qed.

Lemma returnsItsError_returnIfError (ip : Z) (e : error) :
  returnsItsError (ret (returnIfError ip e)).
Proof.
  intros vm err vm'. destruct e; cbn; intros [= <- _]; discriminate.
Qed.

Lemma returnsItsError_Continue (ip : Z) : returnsItsError (ret (Continue ip)).
Proof. intros vm err vm'. discriminate. Qed.

(** Outside the binary arithmetic case, every [return] of the loop body
    hands the operator's or the stack's error to the caller of [Run]. *)
Lemma switch_returns_error (ip : Z) (op : Opcode) :
  (op =? OpAdd) || (op =? OpSub) || (op =? OpMul) || (op =? OpDiv) = false ->
  returnsItsError (switch ip op).
Proof.
  intros Hnot. unfold switch. rewrite Hnot.
  repeat first
    [ apply returnsItsError_bind; intros ?
    | apply returnsItsError_returnIfError
    | apply returnsItsError_Continue
    | match goal with
      | |- returnsItsError (if ?b then _ else _) => destruct b
      end ].
Qed.

(** The loop returns at once what an iteration returns. *)
Lemma loop_returns (fuel : nat) (ip : Z) (vm vm' : VM) (err : error) :
  ip < Z.of_nat (length (instructions vm)) ->
  body ip vm = Returns (Return err) vm' ->
  loop (S fuel) ip vm = Some (Returns err vm').
Proof. intros Hip Hbody. rewrite loop_step by assumption. rewrite Hbody. reflexivity. Qed.

End Reporting.

(** The scenarios [1 + 2], [1 > 2], [!true], [!5] and [-5 - -10], each
    compiled to load the operands, apply the operators and pop. *)
Example run_1_plus_2 :
  exists vm,
    @Run code0 object0
      (New (mkBytecode [0; 0; 0; 0; 0; 1; 1; 2]
              [Ptr 10%N (Integer 1); Ptr 11%N (Integer 2)]) 12%N)
    = Some (Returns None vm)
    /\ LastPoppedStackElement vm = Returns (Ptr 12%N (Integer 3)) vm.
Proof. eexists. split; vm_compute; reflexivity. Qed.

Example run_1_greater_2 :
  exists vm,
    @Run code0 object0
      (New (mkBytecode [0; 0; 0; 0; 0; 1; 10; 2]
              [Ptr 10%N (Integer 1); Ptr 11%N (Integer 2)]) 12%N)
    = Some (Returns None vm)
    /\ LastPoppedStackElement vm = Returns vm_False vm.
Proof. eexists. split; vm_compute; reflexivity. Qed.

Example run_bang_true :
  exists vm,
    @Run code0 object0 (New (mkBytecode [6; 12; 2] []) 2%N)
    = Some (Returns None vm)
    /\ LastPoppedStackElement vm = Returns vm_False vm.
Proof. eexists. split; vm_compute; reflexivity. Qed.

Example run_bang_5 :
  exists vm,
    @Run code0 object0
      (New (mkBytecode [0; 0; 0; 12; 2] [Ptr 10%N (Integer 5)]) 11%N)
    = Some (Returns None vm)
    /\ LastPoppedStackElement vm = Returns vm_False vm.
Proof. eexists. split; vm_compute; reflexivity. Qed.

Example run_minus_5_minus_minus_10 :
  exists vm,
    @Run code0 object0
      (New (mkBytecode [0; 0; 0; 11; 0; 0; 1; 11; 3; 2]
              [Ptr 10%N (Integer 5); Ptr 11%N (Integer 10)]) 12%N)
    = Some (Returns None vm)
    /\ LastPoppedStackElement vm = Returns (Ptr 14%N (Integer 5)) vm.
Proof. eexists. split; vm_compute; reflexivity. Qed.

(** * Further properties of the machine *)

(** ** The stack primitives *)

(** X1. What [pop] returns is what [LastPoppedStackElement] reads next: the
    popped value stays in the slot the stack pointer now designates. *)
Theorem pop_then_LastPoppedStackElement (vm vm' : VM) (o : Object)
    (Hpop : pop vm = Returns o vm') :
  LastPoppedStackElement vm' = Returns o vm'
  /\ sp vm' = sp vm - 1 /\ stack vm' = stack vm.
Proof.
  unfold pop in Hpop.
  destruct (index (stack vm) (sp vm - 1)) as [o' |] eqn:Htop;
    [| discriminate].
  injection Hpop as -> <-.
  unfold LastPoppedStackElement. cbn [stack sp]. rewrite Htop.
  split; [reflexivity | split; reflexivity].
Qed.

Lemma pop_then_LastPoppedStackElement_witness :
  let vm := loaded (mkBytecode [] []) 3%N [Ptr 2%N (Integer 5)] in
  LastPoppedStackElement (dropTop 1 3%N vm)
  = Returns (Ptr 2%N (Integer 5)) (dropTop 1 3%N vm).
Proof.
  intros vm.
  apply (pop_then_LastPoppedStackElement vm (dropTop 1 3%N vm)
           (Ptr 2%N (Integer 5))).
  reflexivity.
Defined.

(** X2. Below capacity, [push] followed by [pop] gives back the pushed
    value with no error and the stack pointer where it was; the value
    stays behind in the slot at [sp]. *)
Theorem push_then_pop (o : Object) (vm : VM)
    (Hok : stack_ok vm) (Hroom : sp vm < StackSize) :
  (err <- push o ;; popped <- pop ;; ret (err, popped)) vm
  = Returns (None, o) (dropTop 1 (heap vm) (replaceTop 0 o (heap vm) vm))
  /\ sp (dropTop 1 (heap vm) (replaceTop 0 o (heap vm) vm)) = sp vm
  /\ index (stack (dropTop 1 (heap vm) (replaceTop 0 o (heap vm) vm))) (sp vm)
     = Some o.
Proof.
  destruct Hok as [Hlen Hsp].
  assert (Hslot : index (stack (replaceTop 0 o (heap vm) vm)) (sp vm) = Some o).
  { cbn [replaceTop stack]. rewrite Z.sub_0_r.
    apply index_insert_same. lia. }
  split; [| split].
  - unfold bind. rewrite push_ok by lia.
    rewrite (pop_ok o).
    + reflexivity.
    + rewrite <- Hslot. f_equal. cbn [replaceTop sp]. lia.
  - cbn [dropTop replaceTop sp]. lia.
  - exact Hslot.
Qed.

Lemma push_then_pop_witness :
  let vm := New (mkBytecode [] []) 2%N in
  (err <- push vm_True ;; popped <- pop ;; ret (err, popped)) vm
  = Returns (None, vm_True) (dropTop 1 2%N (replaceTop 0 vm_True 2%N vm)).
Proof.
  intros vm. apply (push_then_pop vm_True vm).
  - split; [reflexivity | cbn; unfold StackSize; lia].
  - reflexivity.
Defined.

(** X3. [pop] followed by [push] of the popped value restores the machine
    exactly: same stack contents, same stack pointer, no error. *)
Theorem pop_then_push (o : Object) (vm : VM)
    (Hok : stack_ok vm)
    (Htop : index (stack vm) (sp vm - 1) = Some o) :
  (popped <- pop ;; push popped) vm = Returns None vm.
Proof.
  destruct Hok as [Hlen Hsp].
  pose proof (index_Some_range _ _ _ Htop) as Hrange.
  unfold bind. rewrite (pop_ok o) by assumption.
  rewrite push_dropTop by lia.
  f_equal. unfold replaceTop. destruct vm as [cs ins st p h].
  cbn [contants instructions stack sp heap] in *.
  rewrite index_in_range in Htop by assumption.
  rewrite (list_insert_id st _ _ Htop).
  f_equal. lia.
Qed.

Lemma pop_then_push_witness :
  let vm := loaded (mkBytecode [] []) 3%N [Ptr 2%N (Integer 5)] in
  (popped <- pop ;; push popped) vm = Returns None vm.
Proof.
  intros vm. apply (pop_then_push (Ptr 2%N (Integer 5)) vm).
  - split; [reflexivity | cbn; unfold StackSize; lia].
  - reflexivity.
Defined.

(** ** Stack underflow *)

Section Underflow.
Context {code : CodePkg} {object : ObjectPkg}.

Lemma pop_pop_underflow {A} (vm : VM) (k : Object -> Object -> M A) :
  sp vm <= 1 ->
  (right <- pop ;; left <- pop ;; k right left) vm = Panics IndexOutOfRange.
Proof.
  intros Hsp. unfold bind at 1. unfold pop at 1.
  destruct (index (stack vm) (sp vm - 1)) as [r |]; [| reflexivity].
  unfold bind at 1. unfold pop at 1. cbn [stack sp].
  rewrite index_out_of_range by lia. reflexivity.
Qed.

(** X4. Underflow is not an error value but a panic: the pop, bang and
    minus opcodes on an empty stack, and the binary arithmetic and
    comparison opcodes on a stack of fewer than two values, panic with an
    index out of range, and so does [Run]. *)
Theorem opcodes_panic_on_underflow
    (vm : VM) (ip : Z) (op : Opcode)
    (Hd : distinct_opcodes code)
    (Hop : index (instructions vm) ip = Some op)
    (Hunder :
       (sp vm <= 0 /\ (op = OpPop \/ op = OpBang \/ op = OpMinus))
       \/ (sp vm <= 1 /\ (isBinaryOp op \/ isComparisonOp op))) :
  body ip vm = Panics IndexOutOfRange
  /\ (forall fuel, loop (S fuel) ip vm = Some (Panics IndexOutOfRange))
  /\ (forall vm0,
        reaches vm0 ip vm -> Run vm0 = Some (Panics IndexOutOfRange)).
Proof.
  pose proof (index_Some_range _ _ _ Hop) as Hip.
  assert (Hbody : body ip vm = Panics IndexOutOfRange).
  { destruct Hunder as [[Hsp [-> | [-> | ->]]] | [Hsp [Hbin | Hcmp]]].
    - rewrite (body_pop ip vm Hd Hop). unfold bind.
      rewrite pop_empty by assumption. reflexivity.
    - rewrite (body_bang ip vm Hd Hop). unfold bind, executeBangOperator, bind.
      rewrite pop_empty by assumption. reflexivity.
    - rewrite (body_minus ip vm Hd Hop).
      unfold bind, executeMinusOperator, bind.
      rewrite pop_empty by assumption. reflexivity.
    - rewrite (body_binary ip vm op Hd Hop Hbin).
      unfold bind at 1. unfold executeBinaryOperation.
      rewrite pop_pop_underflow by assumption. reflexivity.
    - rewrite (body_comparison ip vm op Hd Hop Hcmp).
      unfold bind at 1. unfold executeComparison.
      rewrite pop_pop_underflow by assumption. reflexivity. }
  assert (Hloop : forall fuel,
            loop (S fuel) ip vm = Some (Panics IndexOutOfRange)).
  { intros fuel. rewrite loop_step by lia. rewrite Hbody. reflexivity. }
  split; [exact Hbody |]. split; [exact Hloop |].
  intros vm0 Hreach. apply (reaches_Run vm0 ip vm Hreach 1). apply Hloop.
Qed.

(** ** The loop as a whole *)

(** X5. [Run] always finishes, by returning or by panicking, within as
    many iterations as the instruction stream has bytes: every iteration
    moves the instruction pointer forward.  Allowing the loop more
    iterations changes nothing. *)
Theorem Run_finishes (vm : VM) :
  exists out,
    Run vm = Some out
    /\ forall fuel,
         (length (instructions vm) <= fuel)%nat -> loop fuel 0 vm = Some out.
Proof.
  destruct (loop_enough_fuel (length (instructions vm)) 0 vm ltac:(lia))
    as [out Hout].
  exists out. split; [exact Hout |].
  intros fuel Hfuel. eapply loop_fuel_irrelevant; eassumption.
Qed.

(** X6. Whatever [Run] returns, an error included, it leaves the
    instruction stream and the constant pool as they were, and the stack
    pointer within [0 .. StackSize] on a stack of unchanged length. *)
Theorem Run_keeps_program_and_stack_bounds
    (vm vm' : VM) (err : error)
    (Hok : stack_ok vm)
    (Hrun : Run vm = Some (Returns err vm')) :
  instructions vm' = instructions vm
  /\ contants vm' = contants vm
  /\ length (stack vm') = length (stack vm)
  /\ 0 <= sp vm' <= StackSize.
Proof.
  destruct (loop_frame _ _ _ _ _ Hrun) as (Hins & Hcs & Hlen & Hok').
  destruct (Hok' Hok) as [_ Hsp]. auto.
Qed.

End Underflow.

Lemma opcodes_panic_on_underflow_witness :
  @Run code0 object0 (New (mkBytecode [2] []) 2%N)
  = Some (Panics IndexOutOfRange).
Proof.
  refine (proj2 (proj2
    (@opcodes_panic_on_underflow code0 object0
       (New (mkBytecode [2] []) 2%N) 0 2 _ _ _))
    _ (reaches_start _)).
  - apply (bool_decide_unpack _). vm_compute. exact I.
  - reflexivity.
  - left. split; [cbn; lia | left; reflexivity].
Defined.

Lemma Run_keeps_program_and_stack_bounds_witness :
  let vm := New (mkBytecode [6; 6; 8] []) 2%N in
  let vm' := booleanResult
               (replaceTop 0 vm_True 2%N (replaceTop 0 vm_True 2%N vm)) true in
  instructions vm' = instructions vm
  /\ contants vm' = contants vm
  /\ length (stack vm') = length (stack vm)
  /\ 0 <= sp vm' <= StackSize.
Proof.
  intros vm vm'.
  apply (@Run_keeps_program_and_stack_bounds code0 object0 vm vm' None).
  - split; [reflexivity | cbn; unfold StackSize; lia].
  - vm_compute. reflexivity.
Defined.

(** ** Loading constants and literals *)

Section Loads.
Context {code : CodePkg} {object : ObjectPkg}.

Lemma body_constant (ip : Z) (vm : VM) (idx : Z) :
  index (instructions vm) ip = Some OpConstant ->
  ReadUint16 (drop (Z.to_nat (ip + 1)) (instructions vm)) = Some idx ->
  body ip vm =
    (o <- orPanic IndexOutOfRange (index (contants vm) idx) ;;
     err <- push o ;;
     ret (returnIfError (ip + 2) err)) vm.
Proof.
  intros Hop Hidx. pose proof (index_Some_range _ _ _ Hop) as Hip.
  rewrite (body_fetch _ _ OpConstant) by assumption.
  unfold switch. rewrite Z.eqb_refl.
  unfold bind at 1. unfold gets at 1.
  unfold bind at 1. unfold slice_from.
  case_decide; [| lia]. cbn [orPanic ret].
  unfold bind at 1. rewrite Hidx. cbn [orPanic ret].
  reflexivity.
Qed.

(** X7. The load-constant opcode whose operand bytes decode to [idx]:
    with room on the stack it pushes [constants[idx]] and the loop goes on
    three bytes further, past the operand; on a full stack [Run] returns
    the stack-overflow error and the machine is unchanged; an [idx] outside
    the constant pool panics with an index out of range. *)
Theorem load_constant_opcode
    (vm : VM) (ip idx : Z)
    (Hok : stack_ok vm)
    (Hop : index (instructions vm) ip = Some OpConstant)
    (Hidx : ReadUint16 (drop (Z.to_nat (ip + 1)) (instructions vm))
            = Some idx) :
  (forall o,
     index (contants vm) idx = Some o ->
     (sp vm < StackSize ->
      body ip vm
      = Returns (Continue (ip + 2)) (replaceTop 0 o (heap vm) vm)
      /\ forall fuel,
           loop (S fuel) ip vm
           = loop fuel (ip + 3) (replaceTop 0 o (heap vm) vm))
     /\ (sp vm = StackSize ->
         forall fuel,
           loop (S fuel) ip vm
           = Some (Returns (Some "stack overflow"%string) vm)))
  /\ (index (contants vm) idx = None ->
      body ip vm = Panics IndexOutOfRange).
Proof.
  pose proof (index_Some_range _ _ _ Hop) as Hip.
  destruct Hok as [Hlen Hsp].
  pose proof (body_constant ip vm idx Hop Hidx) as Hbody.
  split.
  - intros o Ho. unfold bind in Hbody. rewrite Ho in Hbody.
    cbn [orPanic ret] in Hbody. split.
    + intros Hroom. rewrite push_ok in Hbody by lia.
      cbn [returnIfError] in Hbody. split; [exact Hbody |].
      intros fuel. rewrite loop_step by lia. rewrite Hbody.
      f_equal. lia.
    + intros Hfull fuel. rewrite push_full in Hbody by lia.
      cbn [returnIfError] in Hbody.
      rewrite loop_step by lia. rewrite Hbody. reflexivity.
  - intros Hnone. unfold bind in Hbody. rewrite Hnone in Hbody.
    exact Hbody.
Qed.

(** X8. The load-true and load-false opcodes push the singleton [True],
    respectively [False], allocating nothing, while there is room; on a
    full stack [Run] returns the stack-overflow error at once and the
    machine is unchanged. *)
Theorem literal_opcodes
    (vm : VM) (ip : Z) (op : Opcode) (t : bool)
    (Hd : distinct_opcodes code) (Hok : stack_ok vm)
    (Hop : index (instructions vm) ip = Some op)
    (Hlit : op = if t then OpTrue else OpFalse) :
  (sp vm < StackSize ->
   body ip vm
   = Returns (Continue ip)
       (replaceTop 0 (if t then vm_True else vm_False) (heap vm) vm))
  /\ (sp vm = StackSize ->
      (forall fuel,
         loop (S fuel) ip vm
         = Some (Returns (Some "stack overflow"%string) vm))
      /\ (forall vm0,
            reaches vm0 ip vm ->
            Run vm0 = Some (Returns (Some "stack overflow"%string) vm))).
Proof.
  pose proof (index_Some_range _ _ _ Hop) as Hip.
  destruct Hok as [Hlen Hsp].
  assert (Hbody : body ip vm
            = (err <- push (if t then vm_True else vm_False) ;;
               ret (returnIfError ip err)) vm).
  { subst op. destruct t;
      [apply (body_true ip vm Hd Hop) | apply (body_false ip vm Hd Hop)]. }
  unfold bind in Hbody. split.
  - intros Hroom. rewrite push_ok in Hbody by lia. exact Hbody.
  - intros Hfull. rewrite push_full in Hbody by lia.
    cbn [ret returnIfError] in Hbody.
    assert (Hloop : forall fuel,
              loop (S fuel) ip vm
              = Some (Returns (Some "stack overflow"%string) vm)).
    { intros fuel. rewrite loop_step by lia. rewrite Hbody. reflexivity. }
    split; [exact Hloop |].
    intros vm0 Hreach. apply (reaches_Run vm0 ip vm Hreach 1). apply Hloop.
Qed.

End Loads.

Lemma load_constant_opcode_witness :
  let vm := New (mkBytecode [0; 0; 1] [Ptr 10%N (Integer 1); Ptr 11%N (Integer 2)])
              12%N in
  @body code0 object0 0 vm
  = Returns (Continue (0 + 2)) (replaceTop 0 (Ptr 11%N (Integer 2)) 12%N vm).
Proof.
  intros vm.
  refine (proj1 (proj1 (proj1
    (@load_constant_opcode code0 object0 vm 0 1 _ _ _)
    (Ptr 11%N (Integer 2)) _) _)).
  - split; [reflexivity | cbn; unfold StackSize; lia].
  - reflexivity.
  - reflexivity.
  - reflexivity.
  - reflexivity.
Defined.

Lemma literal_opcodes_witness :
  let vm := New (mkBytecode [7] []) 2%N in
  @body code0 object0 0 vm
  = Returns (Continue 0) (replaceTop 0 vm_False 2%N vm).
Proof.
  intros vm.
  refine (proj1
    (@literal_opcodes code0 object0 vm 0 7 false _ _ _ _) _).
  - apply (bool_decide_unpack _). vm_compute. exact I.
  - split; [reflexivity | cbn; unfold StackSize; lia].
  - reflexivity.
  - reflexivity.
  - reflexivity.
Defined.

(** ** The slots an instruction touches *)

Lemma keeps_stack_ret {A} (a : A) : keeps_stack (ret a).
Proof. intros vm a' vm' [= _ <-]. reflexivity. Qed.

Lemma keeps_stack_panic {A} (p : Panic) : keeps_stack (@panic A p).
Proof. intros vm a vm'. discriminate. Qed.

Lemma keeps_stack_gets {A} (f : VM -> A) : keeps_stack (gets f).
Proof. intros vm a' vm' [= _ <-]. reflexivity. Qed.

Lemma keeps_stack_orPanic {A} (p : Panic) (o : option A) :
  keeps_stack (orPanic p o).
Proof. destruct o; [apply keeps_stack_ret | apply keeps_stack_panic]. Qed.

Lemma keeps_stack_pop : keeps_stack pop.
Proof.
  intros vm o vm'. unfold pop.
  destruct (index (stack vm) (sp vm - 1)); [| discriminate].
  intros [= _ <-]. reflexivity.
Qed.

Lemma keeps_stack_newInteger (v : Z) : keeps_stack (newInteger v).
Proof. intros vm o vm' [= _ <-]. reflexivity. Qed.

Lemma keeps_stack_typeOf `{ObjectPkg} (o : Object) : keeps_stack (typeOf o).
Proof. destruct o; [apply keeps_stack_panic | apply keeps_stack_ret]. Qed.

Lemma keeps_stack_integerValue (o : Object) : keeps_stack (integerValue o).
Proof.
  destruct o as [| a []];
    first [apply keeps_stack_panic | apply keeps_stack_ret].
Qed.

Lemma keeps_stack_bind {A B} (m : M A) (k : A -> M B) :
  keeps_stack m -> (forall a, keeps_stack (k a)) -> keeps_stack (bind m k).
Proof.
  intros Hm Hk vm b vm'. unfold bind.
  destruct (m vm) as [a vm1 |] eqn:E; [| discriminate].
  intros Hb. rewrite (Hk a _ _ _ Hb). apply (Hm _ _ _ E).
Qed.

Lemma writes_top_keeps {A} (m : M A) : keeps_stack m -> writes_top m.
Proof. intros Hm vm a vm' Hr i _. rewrite (Hm _ _ _ Hr). reflexivity. Qed.

Lemma writes_top_bind {A B} (m : M A) (k : A -> M B) :
  keeps_stack m -> (forall a, writes_top (k a)) -> writes_top (bind m k).
Proof.
  intros Hm Hk vm b vm'. unfold bind.
  destruct (m vm) as [a vm1 |] eqn:E; [| discriminate].
  intros Hb i Hi. rewrite (Hk a _ _ _ Hb i Hi).
  rewrite (Hm _ _ _ E). reflexivity.
Qed.

Lemma writes_top_bind_ret {A B} (m : M A) (f : A -> B) :
  writes_top m -> writes_top (bind m (fun a => ret (f a))).
Proof.
  intros Hm vm b vm'. unfold bind, ret.
  destruct (m vm) as [a vm1 |] eqn:E; [| discriminate].
  intros [= _ <-]. apply (Hm _ _ _ E).
Qed.

Lemma writes_top_push (o : Object) : writes_top (push o).
Proof.
  intros vm err vm'. unfold push.
  destruct (Z.geb_spec (sp vm) StackSize).
  - intros [= _ <-] i _. reflexivity.
  - case_decide; [| discriminate]. intros [= _ <-] i Hi.
    cbn [stack sp] in *.
    destruct (Z.lt_ge_cases i 0) as [Hneg | Hpos].
    + rewrite !index_out_of_range by lia. reflexivity.
    + apply index_insert_other; lia.
Qed.

Create HintDb slots.
#[local] Hint Resolve keeps_stack_ret keeps_stack_panic keeps_stack_gets
  keeps_stack_orPanic keeps_stack_pop keeps_stack_newInteger
  keeps_stack_typeOf keeps_stack_integerValue : slots.

Ltac keeps_step :=
  match goal with
  | |- keeps_stack (bind _ _) => apply keeps_stack_bind; [| intros ?]
  | |- keeps_stack (if ?b then _ else _) => destruct b
  | |- keeps_stack _ => solve [auto with slots]
  end.

Ltac writes_step :=
  match goal with
  | |- writes_top (bind _ (fun _ => ret _)) =>
      apply writes_top_bind_ret
  | |- writes_top (bind _ _) =>
      apply writes_top_bind; [solve [repeat keeps_step] | intros ?]
  | |- writes_top (if ?b then _ else _) => destruct b
  | |- writes_top (match ?e with Some _ => _ | None => _ end) => destruct e
  | |- writes_top (push _) => apply writes_top_push
  | |- writes_top _ => apply writes_top_keeps; solve [repeat keeps_step]
  end.

Section Slots.
Context {code : CodePkg} {object : ObjectPkg}.

Lemma writes_top_executeBinaryOperation op :
  writes_top (executeBinaryOperation op).
Proof.
  unfold executeBinaryOperation, executeBinaryIntegerOperation.
  repeat writes_step.
Qed.

Lemma writes_top_executeComparison op : writes_top (executeComparison op).
Proof.
  unfold executeComparison, executeIntegerComparison.
  repeat writes_step.
Qed.

Lemma writes_top_executeBangOperator : writes_top executeBangOperator.
Proof. unfold executeBangOperator. repeat writes_step. Qed.

Lemma writes_top_executeMinusOperator : writes_top executeMinusOperator.
Proof. unfold executeMinusOperator. repeat writes_step. Qed.

Lemma writes_top_binary_case (ip : Z) (op : Opcode) :
  writes_top
    (err <- executeBinaryOperation op ;;
     match err with
     | Some _ => ret (Return None)
     | None => ret (Continue ip)
     end).
Proof.
  intros vm f vm'. unfold bind.
  destruct (executeBinaryOperation op vm) as [e vm1 |] eqn:E;
    [| discriminate].
  destruct e; intros [= _ <-];
    apply (writes_top_executeBinaryOperation op _ _ _ E).
Qed.

Lemma writes_top_switch (ip : Z) (op : Opcode) : writes_top (switch ip op).
Proof.
  unfold switch.
  repeat first
    [ apply writes_top_binary_case
    | apply writes_top_bind_ret;
      first [ apply writes_top_push
            | apply writes_top_executeComparison
            | apply writes_top_executeBangOperator
            | apply writes_top_executeMinusOperator
            | apply writes_top_keeps; apply keeps_stack_pop ]
    | apply writes_top_bind; [solve [repeat keeps_step] | intros ?]
    | match goal with
      | |- writes_top (if ?b then _ else _) => destruct b
      end
    | apply writes_top_keeps; solve [repeat keeps_step] ].
Qed.

(** X9. One iteration of the loop of [Run], whatever the opcode and
    whether it ends in an error or not, changes no slot of the stack array
    except, possibly, the one just below the stack pointer it leaves: the
    values under the operands of an instruction are never disturbed. *)
Theorem iteration_touches_only_the_top
    (vm vm' : VM) (ip : Z) (flow : Flow)
    (Hbody : body ip vm = Returns flow vm') :
  forall i, i <> sp vm' - 1 -> index (stack vm') i = index (stack vm) i.
Proof.
  revert vm flow vm' Hbody.
  change (writes_top (body ip)).
  unfold body.
  apply writes_top_bind; [solve [repeat keeps_step] | intros ins].
  apply writes_top_bind; [solve [repeat keeps_step] | intros op].
  apply writes_top_switch.
Qed.

End Slots.

Lemma iteration_touches_only_the_top_witness :
  let vm := loaded (mkBytecode [1] []) 5%N
              [Ptr 2%N (Integer 9); Ptr 3%N (Integer 1); Ptr 4%N (Integer 2)] in
  index (stack (integerResult vm 3)) 0 = index (stack vm) 0.
Proof.
  intros vm.
  apply (@iteration_touches_only_the_top code0 object0 vm
           (integerResult vm 3) 0 (Continue 0)).
  - vm_compute. reflexivity.
  - cbn. lia.
Defined.

(** ** Operators applied twice *)

Lemma replaceTop_1_twice (o o' : Object) (h h' : addr) (vm : VM) :
  replaceTop 1 o' h' (replaceTop 1 o h vm) = replaceTop 1 o' h' vm.
Proof.
  unfold replaceTop. cbn [contants instructions stack sp heap].
  replace (sp vm - 1 + 1 - 1) with (sp vm - 1) by lia.
  rewrite list_insert_insert_eq. reflexivity.
Qed.

Lemma replaceTop_1_top (o : Object) (h : addr) (vm : VM) :
  stack_ok vm -> 1 <= sp vm ->
  stack_ok (replaceTop 1 o h vm)
  /\ index (stack (replaceTop 1 o h vm)) (sp (replaceTop 1 o h vm) - 1)
     = Some o.
Proof.
  intros [Hlen Hsp] H1. unfold stack_ok, replaceTop.
  cbn [stack sp]. rewrite length_insert.
  split; [split; lia |].
  replace (sp vm - 1 + 1 - 1) with (sp vm - 1) by lia.
  apply index_insert_same. lia.
Qed.

Section Twice.
Context {code : CodePkg} {object : ObjectPkg}.

(** X10. Bang applied twice leaves the singleton [False] where the operand
    was the singleton [False], and the singleton [True] for every other
    operand: [True] itself, and any value that is no boolean singleton. *)
Theorem bang_twice (operand : Object) (vm : VM)
    (Hok : stack_ok vm)
    (Htop : index (stack vm) (sp vm - 1) = Some operand) :
  (_ <- executeBangOperator ;; executeBangOperator) vm
  = Returns None
      (replaceTop 1
         (if iface_eq operand vm_False then vm_False else vm_True)
         (heap vm) vm).
Proof.
  pose proof (index_Some_range _ _ _ Htop) as Hrange.
  destruct (replaceTop_1_top (bangOf operand) (heap vm) vm Hok ltac:(lia))
    as [Hok1 Htop1].
  unfold bind. rewrite (executeBangOperator_ok operand vm Hok Htop).
  rewrite (executeBangOperator_ok _ _ Hok1 Htop1).
  cbn [heap replaceTop]. rewrite replaceTop_1_twice.
  f_equal. f_equal. unfold bangOf.
  destruct operand as [| p d]; [reflexivity |].
  destruct (iface_eq (Ptr p d) vm_True) eqn:Et.
  - destruct (iface_eq (Ptr p d) vm_False) eqn:Ef; [| reflexivity].
    unfold iface_eq, vm_True, vm_False in Et, Ef.
    apply andb_true_iff in Et. destruct Et as [_ Et].
    apply andb_true_iff in Ef. destruct Ef as [_ Ef].
    apply N.eqb_eq in Et. apply N.eqb_eq in Ef. congruence.
  - destruct (iface_eq (Ptr p d) vm_False); reflexivity.
Qed.

(** X11. Minus applied twice to an Integer [n] gives [n] back, for every
    64-bit [n], [-2^63] included; each application allocates a new
    Integer. *)
Theorem minus_twice (p : addr) (n : Z) (vm : VM)
    (Hok : stack_ok vm) (Hn : int64_range n)
    (Htop : index (stack vm) (sp vm - 1) = Some (Ptr p (Integer n))) :
  (_ <- executeMinusOperator ;; executeMinusOperator) vm
  = Returns None
      (replaceTop 1 (Ptr (N.succ (heap vm)) (Integer n))
         (N.succ (N.succ (heap vm))) vm).
Proof.
  pose proof (index_Some_range _ _ _ Htop) as Hrange.
  destruct (replaceTop_1_top (Ptr (heap vm) (Integer (wrap64 (- n))))
              (N.succ (heap vm)) vm Hok ltac:(lia)) as [Hok1 Htop1].
  unfold bind. rewrite (executeMinusOperator_integer p n vm Hok Htop).
  rewrite (executeMinusOperator_integer _ _ _ Hok1 Htop1).
  cbn [heap replaceTop]. rewrite replaceTop_1_twice.
  assert (Hback : wrap64 (- wrap64 (- n)) = n).
  { unfold int64_range in Hn.
    destruct (Z.eq_dec n (- 2 ^ 63)) as [-> | Hne]; [reflexivity |].
    rewrite (wrap64_id (- n)) by (unfold int64_range; lia).
    rewrite Z.opp_involutive. apply wrap64_id. exact Hn. }
  rewrite Hback. reflexivity.
Qed.

End Twice.

Lemma bang_twice_witness :
  let vm := loaded (mkBytecode [] []) 3%N [Ptr 2%N (Integer 5)] in
  (_ <- executeBangOperator ;; executeBangOperator) vm
  = Returns None (replaceTop 1 vm_True 3%N vm).
Proof.
  intros vm. apply (bang_twice (Ptr 2%N (Integer 5)) vm).
  - split; [reflexivity | cbn; unfold StackSize; lia].
  - reflexivity.
Defined.

Lemma minus_twice_witness :
  let vm := loaded (mkBytecode [] []) 3%N [Ptr 2%N (Integer (- 2 ^ 63))] in
  (_ <- @executeMinusOperator object0 ;; @executeMinusOperator object0) vm
  = Returns None (replaceTop 1 (Ptr 4%N (Integer (- 2 ^ 63))) 5%N vm).
Proof.
  intros vm. apply (@minus_twice object0 2%N (- 2 ^ 63) vm).
  - split; [reflexivity | cbn; unfold StackSize; lia].
  - unfold int64_range. lia.
  - reflexivity.
Defined.

(** ** Equality *)

Section Equality.
Context {code : CodePkg} {object : ObjectPkg}.

(** X12. On the boolean singletons, the equal opcode computes boolean
    equality and the not-equal opcode exclusive or, by comparing
    identities: [True == True] and [False == False] push [True],
    [True == False] pushes [False]. *)
Theorem boolean_equality_by_identity
    (vm : VM) (ip : Z) (op : Opcode) (x y : bool)
    (Hd : distinct_opcodes code) (Hkinds : INTEGER_OBJ <> BOOLEAN_OBJ)
    (Hok : stack_ok vm)
    (Hop : index (instructions vm) ip = Some op)
    (Hleft : index (stack vm) (sp vm - 2) = Some (nativeBoolToBoolean x))
    (Hright : index (stack vm) (sp vm - 1) = Some (nativeBoolToBoolean y)) :
  (op = OpEqual ->
   body ip vm = Returns (Continue ip) (booleanResult vm (Bool.eqb x y)))
  /\ (op = OpNotEqual ->
      body ip vm = Returns (Continue ip) (booleanResult vm (xorb x y))).
Proof.
  assert (Hobj : forall t, exists p, nativeBoolToBoolean t = Ptr p (Boolean t)).
  { intros [|]; eexists; reflexivity. }
  destruct (Hobj x) as [px Hx]. destruct (Hobj y) as [py Hy].
  rewrite Hx in Hleft. rewrite Hy in Hright.
  assert (Hnot : ~ bothInteger (Boolean x) (Boolean y)).
  { unfold bothInteger. cbn [Type_]. intros [E _]. auto. }
  destruct (executeComparison_other vm px py (Boolean x) (Boolean y)
              Hd Hok Hleft Hright Hnot) as (Heq & Hne & _).
  rewrite <- Hx, <- Hy in Heq, Hne.
  assert (Hid : iface_eq (nativeBoolToBoolean y) (nativeBoolToBoolean x)
                = Bool.eqb x y) by (destruct x, y; reflexivity).
  rewrite Hid in Heq, Hne.
  assert (Hxor : negb (Bool.eqb x y) = xorb x y) by (destruct x, y; reflexivity).
  rewrite Hxor in Hne.
  split; intros ->.
  - rewrite (body_comparison ip vm OpEqual Hd Hop)
      by (unfold isComparisonOp; auto).
    unfold bind. rewrite Heq. reflexivity.
  - rewrite (body_comparison ip vm OpNotEqual Hd Hop)
      by (unfold isComparisonOp; auto).
    unfold bind. rewrite Hne. reflexivity.
Qed.

(** X13. For every pair of non-nil operands whose Integer kind is that of
    an Integer, equal and not-equal never fail and are complementary:
    not-equal pushes the singleton [True] exactly when equal pushes the
    singleton [False]. *)
Theorem not_equal_is_the_complement_of_equal
    (vm : VM) (pl pr : addr) (dl dr : Data)
    (Hd : distinct_opcodes code) (Hok : stack_ok vm)
    (Hleft : index (stack vm) (sp vm - 2) = Some (Ptr pl dl))
    (Hright : index (stack vm) (sp vm - 1) = Some (Ptr pr dr))
    (Hl : integerKindIsInteger dl) (Hr : integerKindIsInteger dr) :
  exists t : bool,
    executeComparison OpEqual vm = Returns None (booleanResult vm t)
    /\ executeComparison OpNotEqual vm
       = Returns None (booleanResult vm (negb t)).
Proof.
  destruct (String.eqb_spec (Type_ dl) INTEGER_OBJ) as [El | Nl].
  - destruct (String.eqb_spec (Type_ dr) INTEGER_OBJ) as [Er | Nr].
    + destruct (Hl El) as [a ->]. destruct (Hr Er) as [b ->].
      assert (Hops : integerOperands vm a b) by (exists pl, pr; auto).
      destruct (executeComparison_integers vm a b Hd Hok Hops)
        as (Heq & Hne & _).
      exists (bool_decide (a = b)). split; [exact Heq |].
      rewrite Hne. do 3 f_equal.
      repeat case_bool_decide; first [reflexivity | exfalso; lia].
    + assert (Hnot : ~ bothInteger dl dr) by (unfold bothInteger; tauto).
      destruct (executeComparison_other vm pl pr dl dr Hd Hok
                  Hleft Hright Hnot) as (Heq & Hne & _).
      eexists. split; [exact Heq | exact Hne].
  - assert (Hnot : ~ bothInteger dl dr) by (unfold bothInteger; tauto).
    destruct (executeComparison_other vm pl pr dl dr Hd Hok
                Hleft Hright Hnot) as (Heq & Hne & _).
    eexists. split; [exact Heq | exact Hne].
Qed.

End Equality.

Lemma boolean_equality_by_identity_witness :
  let vm := loaded (mkBytecode [8] []) 2%N [vm_True; vm_False] in
  @body code0 object0 0 vm
  = Returns (Continue 0) (booleanResult vm (Bool.eqb true false)).
Proof.
  intros vm.
  refine (proj1
    (@boolean_equality_by_identity code0 object0 vm 0 8 true false
       _ _ _ _ _ _) eq_refl).
  - apply (bool_decide_unpack _). vm_compute. exact I.
  - discriminate.
  - split; [reflexivity | cbn; unfold StackSize; lia].
  - reflexivity.
  - reflexivity.
  - reflexivity.
Defined.

Lemma not_equal_is_the_complement_of_equal_witness :
  let vm := loaded (mkBytecode [] []) 3%N [vm_True; Ptr 2%N (Integer 1)] in
  exists t : bool,
    @executeComparison code0 object0 8 vm
    = Returns None (booleanResult vm t)
    /\ @executeComparison code0 object0 9 vm
       = Returns None (booleanResult vm (negb t)).
Proof.
  intros vm.
  apply (@not_equal_is_the_complement_of_equal code0 object0 vm
           0%N 2%N (Boolean true) (Integer 1)).
  - apply (bool_decide_unpack _). vm_compute. exact I.
  - split; [reflexivity | cbn; unfold StackSize; lia].
  - reflexivity.
  - reflexivity.
  - intros E. discriminate E.
  - intros _. exists 1. reflexivity.
Defined.

(** ** Nil operands and operators without an error path *)

Section NilOperands.
Context {code : CodePkg} {object : ObjectPkg}.

(** X14. A nil interface on the stack (a nil entry of the constant pool,
    once loaded) makes the operators that ask for its kind panic with a
    nil dereference instead of returning an error: minus on nil, and a
    binary arithmetic opcode with nil as either operand. *)
Theorem nil_operand_panics
    (vm : VM) (ip : Z) (op : Opcode) (left right : Object)
    (Hd : distinct_opcodes code)
    (Hop : index (instructions vm) ip = Some op)
    (Hright : index (stack vm) (sp vm - 1) = Some right)
    (Hcase :
       (op = OpMinus /\ right = Nil)
       \/ (isBinaryOp op
           /\ index (stack vm) (sp vm - 2) = Some left
           /\ (left = Nil \/ right = Nil))) :
  body ip vm = Panics NilDereference
  /\ (forall fuel, loop (S fuel) ip vm = Some (Panics NilDereference)).
Proof.
  pose proof (index_Some_range _ _ _ Hop) as Hip.
  assert (Hbody : body ip vm = Panics NilDereference).
  { destruct Hcase as [[-> ->] | (Hbin & Hleft & Hnil)].
    - rewrite (body_minus ip vm Hd Hop).
      unfold bind at 1. unfold executeMinusOperator.
      unfold bind at 1. rewrite (pop_ok _ _ Hright). reflexivity.
    - rewrite (body_binary ip vm op Hd Hop Hbin).
      unfold bind at 1. unfold executeBinaryOperation.
      rewrite (pop_pop vm _ _ _ Hright Hleft).
      destruct Hnil as [-> | ->]; [reflexivity |].
      destruct left; reflexivity. }
  split; [exact Hbody |].
  intros fuel. rewrite loop_step by lia. rewrite Hbody. reflexivity.
Qed.

(** X15. The comparison opcodes ask for the kind of the right operand only
    when the left one is of kind Integer.  With a left operand of another
    kind and nil on the right, equal pushes [False] and not-equal pushes
    [True] without a panic, while greater-than, which formats both kinds
    into its error, panics with a nil dereference. *)
Theorem comparison_with_nil_on_the_right
    (vm : VM) (pl : addr) (dl : Data)
    (Hd : distinct_opcodes code) (Hok : stack_ok vm)
    (Hkind : Type_ dl <> INTEGER_OBJ)
    (Hleft : index (stack vm) (sp vm - 2) = Some (Ptr pl dl))
    (Hright : index (stack vm) (sp vm - 1) = Some Nil) :
  executeComparison OpEqual vm = Returns None (booleanResult vm false)
  /\ executeComparison OpNotEqual vm = Returns None (booleanResult vm true)
  /\ executeComparison OpGreaterThan vm = Panics NilDereference.
Proof.
  pose proof (index_Some_range _ _ _ Hleft) as Hrange.
  assert (Hcond :
    forall k : bool -> M error,
      (leftType <- typeOf (Ptr pl dl) ;;
       bothInt <-
         (if String.eqb leftType INTEGER_OBJ then
            rightType <- typeOf Nil ;;
            ret (String.eqb rightType INTEGER_OBJ)
          else ret false) ;;
       k bothInt) (dropTop 2 (heap vm) vm)
      = k false (dropTop 2 (heap vm) vm)).
  { intros k. unfold bind at 1. cbn [typeOf ret].
    destruct (String.eqb_spec (Type_ dl) INTEGER_OBJ); [contradiction |].
    reflexivity. }
  repeat split;
    unfold executeComparison;
    rewrite (pop_pop vm _ _ _ Hright Hleft);
    rewrite Hcond;
    decide_opcodes Hd.
  - apply (push_boolean false); [assumption | lia].
  - apply (push_boolean true); [assumption | lia].
  - reflexivity.
Qed.

(** X16. Bang has no error path: on a machine whose stack pointer is
    inside the stack it panics when the stack is empty and otherwise
    returns nil, having replaced the operand by one of the two boolean
    singletons; it never returns an error and never allocates. *)
Theorem bang_never_returns_an_error (vm : VM) (Hok : stack_ok vm) :
  (sp vm = 0 -> executeBangOperator vm = Panics IndexOutOfRange)
  /\ (0 < sp vm ->
      exists t : bool,
        executeBangOperator vm
        = Returns None
            (replaceTop 1 (if t then vm_True else vm_False) (heap vm) vm)).
Proof.
  destruct Hok as [Hlen Hsp]. split.
  - intros H0. unfold executeBangOperator, bind.
    rewrite pop_empty by lia. reflexivity.
  - intros Hpos.
    destruct (lookup_lt_is_Some_2 (stack vm) (Z.to_nat (sp vm - 1))
                ltac:(lia)) as [operand Htop].
    rewrite <- index_in_range in Htop by lia.
    rewrite (executeBangOperator_ok operand vm (conj Hlen Hsp) Htop).
    unfold bangOf.
    destruct (iface_eq operand vm_True);
      [exists false; reflexivity |].
    destruct (iface_eq operand vm_False);
      [exists true | exists false]; reflexivity.
Qed.

End NilOperands.

Lemma nil_operand_panics_witness :
  let vm := loaded (mkBytecode [11] []) 2%N [Nil] in
  @body code0 object0 0 vm = Panics NilDereference.
Proof.
  intros vm.
  refine (proj1
    (@nil_operand_panics code0 object0 vm 0 11 Nil Nil _ _ _ _)).
  - apply (bool_decide_unpack _). vm_compute. exact I.
  - reflexivity.
  - reflexivity.
  - left. split; reflexivity.
Defined.

Lemma comparison_with_nil_on_the_right_witness :
  let vm := loaded (mkBytecode [] []) 2%N [vm_True; Nil] in
  @executeComparison code0 object0 10 vm = Panics NilDereference.
Proof.
  intros vm.
  refine (proj2 (proj2
    (@comparison_with_nil_on_the_right code0 object0 vm 0%N (Boolean true)
       _ _ _ _ _))).
  - apply (bool_decide_unpack _). vm_compute. exact I.
  - split; [reflexivity | cbn; unfold StackSize; lia].
  - discriminate.
  - reflexivity.
  - reflexivity.
Defined.

Lemma bang_never_returns_an_error_witness :
  executeBangOperator (New (mkBytecode [] []) 2%N) = Panics IndexOutOfRange.
Proof.
  refine (proj1 (bang_never_returns_an_error (New (mkBytecode [] []) 2%N) _)
            eq_refl).
  split; [reflexivity | cbn; unfold StackSize; lia].
Defined.

(** ** The capacity of the stack *)

Section Capacity.
Context {code : CodePkg} {object : ObjectPkg}.

Lemma body_literal (ip : Z) (vm : VM) (op : Opcode) :
  distinct_opcodes code ->
  index (instructions vm) ip = Some op ->
  op = OpTrue \/ op = OpFalse ->
  exists o,
    body ip vm = (err <- push o ;; ret (returnIfError ip err)) vm.
Proof.
  intros Hd Hop [-> | ->].
  - exists vm_True. apply (body_true ip vm Hd Hop).
  - exists vm_False. apply (body_false ip vm Hd Hop).
Qed.

Lemma literal_loop (k : nat) :
  forall (fuel : nat) (ip : Z) (vm : VM),
    distinct_opcodes code ->
    literalProgram (instructions vm) ->
    stack_ok vm -> sp vm = ip ->
    Z.of_nat (length (instructions vm)) - ip = Z.of_nat k ->
    (k <= fuel)%nat ->
    exists err vm',
      loop fuel ip vm = Some (Returns err vm')
      /\ ((Z.of_nat (length (instructions vm)) <= StackSize
           /\ err = None
           /\ sp vm' = Z.of_nat (length (instructions vm)))
          \/ (StackSize < Z.of_nat (length (instructions vm))
              /\ err = Some "stack overflow"%string
              /\ sp vm' = StackSize)).
Proof.
  induction k as [| k IH]; intros fuel ip vm Hd Hlit Hok Hsp Hrest Hfuel.
  - exists None, vm. split; [apply loop_end; lia |].
    left. destruct Hok as [_ Hbound]. repeat split; lia.
  - destruct fuel as [| fuel]; [lia |].
    destruct Hok as [Hlen Hbound].
    assert (Hip : 0 <= ip < Z.of_nat (length (instructions vm))) by lia.
    destruct (lookup_lt_is_Some_2 (instructions vm) (Z.to_nat ip)
                ltac:(lia)) as [op Hop].
    pose proof (Forall_lookup_1 _ _ _ _ Hlit Hop) as Hop_lit.
    rewrite <- index_in_range in Hop by lia.
    destruct (body_literal ip vm op Hd Hop Hop_lit) as [o Hbody].
    unfold bind in Hbody.
    rewrite loop_step by lia.
    destruct (Z.lt_ge_cases (sp vm) StackSize) as [Hroom | Hfull].
    + rewrite push_ok in Hbody by lia. cbn [ret returnIfError] in Hbody.
      rewrite Hbody.
      destruct (IH fuel (ip + 1) (replaceTop 0 o (heap vm) vm))
        as (err & vm' & Hloop & Hres).
      * exact Hd.
      * exact Hlit.
      * split; cbn [replaceTop stack sp]; [rewrite length_insert |]; lia.
      * cbn [replaceTop sp]. lia.
      * cbn [replaceTop instructions]. lia.
      * lia.
      * exists err, vm'. split; [exact Hloop | exact Hres].
    + rewrite push_full in Hbody by lia. cbn [ret returnIfError] in Hbody.
      rewrite Hbody. exists (Some "stack overflow"%string), vm.
      split; [reflexivity |]. right. repeat split; lia.
Qed.

(** X17. A program of [n] load-true and load-false instructions, run on a
    new machine: up to [n = StackSize] the run returns nil and leaves
    [sp = n]; beyond, [Run] returns the stack-overflow error with
    [sp = StackSize].  Exactly [StackSize] values fit. *)
Theorem literal_program_fills_the_stack (bytecode : Bytecode) (h : addr)
    (Hd : distinct_opcodes code)
    (Hlit : literalProgram (Instructions bytecode)) :
  exists err vm',
    Run (New bytecode h) = Some (Returns err vm')
    /\ ((Z.of_nat (length (Instructions bytecode)) <= StackSize
         /\ err = None
         /\ sp vm' = Z.of_nat (length (Instructions bytecode)))
        \/ (StackSize < Z.of_nat (length (Instructions bytecode))
            /\ err = Some "stack overflow"%string
            /\ sp vm' = StackSize)).
Proof.
  unfold Run.
  apply (literal_loop (length (Instructions bytecode))
           (length (instructions (New bytecode h))) 0 (New bytecode h)).
  - exact Hd.
  - exact Hlit.
  - apply New_stack_ok.
  - reflexivity.
  - cbn [New instructions]. lia.
  - cbn [New instructions]. lia.
Qed.

End Capacity.

Lemma literal_program_fills_the_stack_witness :
  exists err vm',
    @Run code0 object0 (New (mkBytecode [6; 7; 6] []) 2%N)
    = Some (Returns err vm')
    /\ ((Z.of_nat (length [6; 7; 6]) <= StackSize
         /\ err = None /\ sp vm' = Z.of_nat (length [6; 7; 6]))
        \/ (StackSize < Z.of_nat (length [6; 7; 6])
            /\ err = Some "stack overflow"%string /\ sp vm' = StackSize)).
Proof.
  apply (@literal_program_fills_the_stack code0 object0
           (mkBytecode [6; 7; 6] []) 2%N).
  - apply (bool_decide_unpack _). vm_compute. exact I.
  - unfold literalProgram.
    constructor; [left; reflexivity |].
    constructor; [right; reflexivity |].
    constructor; [left; reflexivity |].
    constructor.
Defined.

(** ** The stack effect of an instruction *)

Lemma keeps_sp_ret {A} (a : A) : keeps_sp (ret a).
Proof. intros vm a' vm' [= _ <-]. reflexivity. Qed.

Lemma keeps_sp_panic {A} (p : Panic) : keeps_sp (@panic A p).
Proof. intros vm a vm'. discriminate. Qed.

Lemma keeps_sp_gets {A} (f : VM -> A) : keeps_sp (gets f).
Proof. intros vm a' vm' [= _ <-]. reflexivity. Qed.

Lemma keeps_sp_orPanic {A} (p : Panic) (o : option A) : keeps_sp (orPanic p o).
Proof. destruct o; [apply keeps_sp_ret | apply keeps_sp_panic]. Qed.

Lemma keeps_sp_newInteger (v : Z) : keeps_sp (newInteger v).
Proof. intros vm o vm' [= _ <-]. reflexivity. Qed.

Lemma keeps_sp_typeOf `{ObjectPkg} (o : Object) : keeps_sp (typeOf o).
Proof. destruct o; [apply keeps_sp_panic | apply keeps_sp_ret]. Qed.

Lemma keeps_sp_integerValue (o : Object) : keeps_sp (integerValue o).
Proof.
  destruct o as [| a []]; first [apply keeps_sp_panic | apply keeps_sp_ret].
Qed.

Lemma keeps_sp_bind {A B} (m : M A) (k : A -> M B) :
  keeps_sp m -> (forall a, keeps_sp (k a)) -> keeps_sp (bind m k).
Proof.
  intros Hm Hk vm b vm'. unfold bind.
  destruct (m vm) as [a vm1 |] eqn:E; [| discriminate].
  intros Hb. rewrite (Hk a _ _ _ Hb). apply (Hm _ _ _ E).
Qed.

Lemma sp_moves_ret {A} (a : A) (Q : A -> Z -> Prop) :
  Q a 0 -> sp_moves (ret a) Q.
Proof. intros HQ vm a' vm' [= <- <-]. rewrite Z.sub_diag. exact HQ. Qed.

Lemma sp_moves_bind {A B} (m : M A) (k : A -> M B)
    (Q : A -> Z -> Prop) (R : B -> Z -> Prop) :
  sp_moves m Q ->
  (forall a d, Q a d -> sp_moves (k a) (fun b d' => R b (d + d'))) ->
  sp_moves (bind m k) R.
Proof.
  intros Hm Hk vm b vm'. unfold bind.
  destruct (m vm) as [a vm1 |] eqn:E; [| discriminate].
  intros Hb. pose proof (Hk a _ (Hm _ _ _ E) _ _ _ Hb) as HR.
  cbv beta in HR.
  replace (sp vm1 - sp vm + (sp vm' - sp vm1)) with (sp vm' - sp vm)
    in HR by lia.
  exact HR.
Qed.

Lemma sp_moves_bind_keeps {A B} (m : M A) (k : A -> M B)
    (R : B -> Z -> Prop) :
  keeps_sp m -> (forall a, sp_moves (k a) R) -> sp_moves (bind m k) R.
Proof.
  intros Hm Hk vm b vm'. unfold bind.
  destruct (m vm) as [a vm1 |] eqn:E; [| discriminate].
  intros Hb. rewrite <- (Hm _ _ _ E). apply (Hk a _ _ _ Hb).
Qed.

Lemma sp_moves_pop (Q : Object -> Z -> Prop) :
  (forall o, Q o (-1)) -> sp_moves pop Q.
Proof.
  intros HQ vm o vm'. unfold pop.
  destruct (index (stack vm) (sp vm - 1)); [| discriminate].
  intros [= <- <-]. cbn [sp].
  replace (sp vm - 1 - sp vm) with (-1) by lia. apply HQ.
Qed.

Lemma sp_moves_push (o : Object) (Q : error -> Z -> Prop) :
  Q None 1 -> (forall e, Q (Some e) 0) -> sp_moves (push o) Q.
Proof.
  intros Hok Herr vm err vm'. unfold push.
  destruct (sp vm >=? StackSize).
  - intros [= <- <-]. rewrite Z.sub_diag. apply Herr.
  - case_decide; [| discriminate]. intros [= <- <-]. cbn [sp].
    replace (sp vm + 1 - sp vm) with 1 by lia. exact Hok.
Qed.

Create HintDb sp.
#[local] Hint Resolve keeps_sp_ret keeps_sp_panic keeps_sp_gets
  keeps_sp_orPanic keeps_sp_newInteger keeps_sp_typeOf
  keeps_sp_integerValue : sp.

Ltac keeps_sp_step :=
  match goal with
  | |- keeps_sp (bind _ _) => apply keeps_sp_bind; [| intros ?]
  | |- keeps_sp (if ?b then _ else _) => destruct b
  | |- keeps_sp _ => solve [auto with sp]
  end.

Ltac sp_step :=
  match goal with
  | |- sp_moves (bind pop _) _ =>
      eapply sp_moves_bind;
      [apply (sp_moves_pop (fun _ d => d = -1)); reflexivity
      | intros ? ? ->]
  | |- sp_moves (bind _ _) _ =>
      apply sp_moves_bind_keeps; [solve [repeat keeps_sp_step] | intros ?]
  | |- sp_moves (if ?b then _ else _) _ => destruct b
  | |- sp_moves (push _) _ =>
      apply sp_moves_push;
      [| intros ?]; unfold effect; split; intros; first [lia | congruence]
  | |- sp_moves (ret _) _ =>
      apply sp_moves_ret; unfold effect; split; intros;
      first [lia | congruence]
  | |- sp_moves (panic _) _ => intros ? ? ?; discriminate
  end.

Section StackEffect.
Context {code : CodePkg} {object : ObjectPkg}.

Lemma sp_moves_executeBinaryOperation op :
  sp_moves (executeBinaryOperation op) (effect (-1) (-2)).
Proof.
  unfold executeBinaryOperation, executeBinaryIntegerOperation.
  repeat sp_step.
Qed.

Lemma sp_moves_executeComparison op :
  sp_moves (executeComparison op) (effect (-1) (-2)).
Proof.
  unfold executeComparison, executeIntegerComparison.
  repeat sp_step.
Qed.

Lemma sp_moves_executeBangOperator :
  sp_moves executeBangOperator (effect 0 (-1)).
Proof. unfold executeBangOperator. repeat sp_step. Qed.

Lemma sp_moves_executeMinusOperator :
  sp_moves executeMinusOperator (effect 0 (-1)).
Proof. unfold executeMinusOperator. repeat sp_step. Qed.

Lemma sp_moves_report (ip : Z) (m : M error) (ok failed : Z) :
  sp_moves m (effect ok failed) ->
  sp_moves (err <- m ;; ret (returnIfError ip err)) (flowEffect ok failed).
Proof.
  intros Hm. eapply sp_moves_bind; [exact Hm |].
  intros err d [Hok Hfailed]. apply sp_moves_ret. rewrite Z.add_0_r.
  destruct err; cbn [returnIfError flowEffect];
    [apply Hfailed; discriminate | apply Hok; reflexivity].
Qed.

Lemma sp_moves_binary_case (ip : Z) (op : Opcode) :
  sp_moves
    (err <- executeBinaryOperation op ;;
     match err with
     | Some _ => ret (Return None)
     | None => ret (Continue ip)
     end)
    (flowEffect (-1) (-2)).
Proof.
  eapply sp_moves_bind; [apply sp_moves_executeBinaryOperation |].
  intros err d [Hok Hfailed].
  destruct err; apply sp_moves_ret; rewrite Z.add_0_r; cbn [flowEffect];
    [apply Hfailed; discriminate | apply Hok; reflexivity].
Qed.

Lemma sp_moves_push_effect (o : Object) : sp_moves (push o) (effect 1 0).
Proof.
  apply sp_moves_push; [| intros e]; unfold effect; split; intros;
    first [reflexivity | congruence].
Qed.

Lemma sp_moves_constant_case (ip : Z) :
  sp_moves
    (ins <- gets instructions ;;
     operand <- orPanic IndexOutOfRange (slice_from ins (ip + 1)) ;;
     constIndex <- orPanic IndexOutOfRange (ReadUint16 operand) ;;
     cs <- gets contants ;;
     o <- orPanic IndexOutOfRange (index cs constIndex) ;;
     err <- push o ;;
     ret (returnIfError (ip + 2) err))
    (flowEffect 1 0).
Proof.
  do 5 (apply sp_moves_bind_keeps; [solve [auto with sp] | intros ?]).
  apply sp_moves_report. apply sp_moves_push_effect.
Qed.

(** X18. The stack effect of one iteration of the loop, whatever the
    operands.  When the loop goes on: the three load opcodes move the stack
    pointer up by one, pop and the binary and comparison opcodes down by
    one, bang and minus leave it in place.  When the iteration returns
    from [Run]: a failed load leaves it in place, a failed binary or
    comparison opcode has consumed both operands, a failed bang or minus
    its one operand; nothing is restored.  A byte that is no opcode leaves
    the whole machine as it is. *)
Theorem stack_effect_of_an_iteration
    (vm vm' : VM) (ip : Z) (op : Opcode) (flow : Flow)
    (Hd : distinct_opcodes code)
    (Hop : index (instructions vm) ip = Some op)
    (Hbody : body ip vm = Returns flow vm') :
  (op = OpConstant \/ op = OpTrue \/ op = OpFalse ->
   flowEffect 1 0 flow (sp vm' - sp vm))
  /\ (op = OpPop -> flow = Continue ip /\ sp vm' = sp vm - 1)
  /\ (isBinaryOp op \/ isComparisonOp op ->
      flowEffect (-1) (-2) flow (sp vm' - sp vm))
  /\ (op = OpBang \/ op = OpMinus ->
      flowEffect 0 (-1) flow (sp vm' - sp vm))
  /\ (op ∉ opcodes_of code -> flow = Continue ip /\ vm' = vm).
Proof.
  rewrite (body_fetch ip vm op Hop) in Hbody.
  unfold switch in Hbody.
  split; [| split; [| split; [| split]]].
  - intros [-> | [-> | ->]]; revert Hbody; decide_opcodes Hd; intros Hsw.
    + apply (sp_moves_constant_case ip _ _ _ Hsw).
    + apply (sp_moves_report ip _ 1 0 (sp_moves_push_effect _) _ _ _ Hsw).
    + apply (sp_moves_report ip _ 1 0 (sp_moves_push_effect _) _ _ _ Hsw).
  - intros ->. revert Hbody. decide_opcodes Hd. unfold bind, pop.
    destruct (index (stack vm) (sp vm - 1)); [| discriminate].
    intros [= <- <-]. split; reflexivity.
  - intros [[-> | [-> | [-> | ->]]] | [-> | [-> | ->]]];
      revert Hbody; decide_opcodes Hd; intros Hsw;
      first
        [ apply (sp_moves_binary_case ip _ _ _ _ Hsw)
        | apply (sp_moves_report ip _ _ _
                   (sp_moves_executeComparison _) _ _ _ Hsw) ].
  - intros [-> | ->]; revert Hbody; decide_opcodes Hd; intros Hsw.
    + apply (sp_moves_report ip _ _ _
               sp_moves_executeBangOperator _ _ _ Hsw).
    + apply (sp_moves_report ip _ _ _
               sp_moves_executeMinusOperator _ _ _ Hsw).
  - intros Hunknown. unfold opcodes_of in Hunknown.
    repeat (apply not_elem_of_cons in Hunknown;
            destruct Hunknown as [? Hunknown]).
    revert Hbody. rewrite_opcodes. intros [= <- <-]. split; reflexivity.
Qed.

End StackEffect.

Lemma stack_effect_of_an_iteration_witness :
  let vm := loaded (mkBytecode [10] []) 2%N [vm_True; vm_False] in
  flowEffect (-1) (-2)
    (Return (Some "unknown operator 10 (BOOLEAN BOOLEAN)"%string))
    (sp (dropTop 2 2%N vm) - sp vm).
Proof.
  intros vm.
  refine (proj1 (proj2 (proj2
    (@stack_effect_of_an_iteration code0 object0 vm (dropTop 2 2%N vm) 0 10
       (Return (Some "unknown operator 10 (BOOLEAN BOOLEAN)"%string))
       _ _ _))) _).
  - apply (bool_decide_unpack _). vm_compute. exact I.
  - reflexivity.
  - vm_compute. reflexivity.
  - right. right. right. reflexivity.
Defined.

(** ** Wrap-around arithmetic composes *)

Lemma wrap64_add_sub (a b : Z) :
  int64_range a -> wrap64 (wrap64 (a + b) - b) = a.
Proof.
  intros Ha. unfold wrap64.
  replace ((a + b + 2 ^ 63) mod 2 ^ 64 - 2 ^ 63 - b + 2 ^ 63)
    with ((a + b + 2 ^ 63) mod 2 ^ 64 - b) by lia.
  rewrite Zminus_mod_idemp_l.
  replace (a + b + 2 ^ 63 - b) with (a + 2 ^ 63) by lia.
  unfold int64_range in Ha. rewrite Z.mod_small by lia. lia.
Qed.

Section AddSub.
Context {code : CodePkg} {object : ObjectPkg}.

(** X19. Subtract undoes add even when the sum overflows: on Integers [a]
    and [b], add, then push an Integer [b] again, then subtract, leaves an
    Integer of value exactly [a] where [a] was, with no error. *)
Theorem subtract_undoes_add
    (vm : VM) (pa pb pb' : addr) (a b : Z)
    (Hd : distinct_opcodes code) (Hok : stack_ok vm)
    (Hleft : index (stack vm) (sp vm - 2) = Some (Ptr pa (Integer a)))
    (Hright : index (stack vm) (sp vm - 1) = Some (Ptr pb (Integer b)))
    (Ha : int64_range a) :
  exists vm' p,
    (_ <- executeBinaryOperation OpAdd ;;
     _ <- push (Ptr pb' (Integer b)) ;;
     executeBinaryOperation OpSub) vm
    = Returns None vm'
    /\ sp vm' = sp vm - 1
    /\ index (stack vm') (sp vm - 2) = Some (Ptr p (Integer a)).
Proof.
  pose proof (index_Some_range _ _ _ Hleft) as Hrange.
  destruct Hok as [Hlen Hsp].
  assert (Hops : integerOperands vm a b) by (exists pa, pb; auto).
  destruct (executeBinaryOperation_arith vm a b Hd (conj Hlen Hsp) Hops)
    as (Hadd & _).
  set (vm1 := integerResult vm (wrap64 (a + b))) in *.
  assert (Hsp1 : sp vm1 = sp vm - 1) by (cbn; lia).
  assert (Hlen1 : length (stack vm1) = length (stack vm))
    by (cbn; apply length_insert).
  set (vm2 := replaceTop 0 (Ptr pb' (Integer b)) (heap vm1) vm1).
  assert (Hpush : push (Ptr pb' (Integer b)) vm1 = Returns None vm2)
    by (apply push_ok; lia).
  assert (Hsp2 : sp vm2 = sp vm) by (cbn; lia).
  assert (Hok2 : stack_ok vm2).
  { split; [| lia]. cbn [vm2 replaceTop stack]. rewrite length_insert. lia. }
  assert (Hops2 : integerOperands vm2 (wrap64 (a + b)) b).
  { exists (heap vm), pb'. rewrite Hsp2. split.
    - cbn [vm2 replaceTop stack]. rewrite Hsp1.
      rewrite index_insert_other by lia.
      cbn [vm1 integerResult replaceTop stack].
      apply index_insert_same. lia.
    - cbn [vm2 replaceTop stack]. rewrite Hsp1.
      replace (sp vm - 1 - 0) with (sp vm - 1) by lia.
      apply index_insert_same. lia. }
  destruct (executeBinaryOperation_arith vm2 (wrap64 (a + b)) b Hd Hok2 Hops2)
    as (_ & Hsub & _).
  rewrite (wrap64_add_sub a b Ha) in Hsub.
  exists (integerResult vm2 a), (heap vm2).
  split; [| split].
  - unfold bind. rewrite Hadd. fold vm1. rewrite Hpush. exact Hsub.
  - cbn [integerResult replaceTop sp]. lia.
  - cbn [integerResult replaceTop stack]. rewrite Hsp2.
    apply index_insert_same. cbn [vm2 replaceTop stack].
    rewrite length_insert. lia.
Qed.

End AddSub.

Lemma subtract_undoes_add_witness :
  let vm := loaded (mkBytecode [] []) 4%N
              [Ptr 2%N (Integer (2 ^ 63 - 1)); Ptr 3%N (Integer 5)] in
  exists vm' p,
    (_ <- @executeBinaryOperation code0 object0 1 ;;
     _ <- push (Ptr 3%N (Integer 5)) ;;
     @executeBinaryOperation code0 object0 3) vm
    = Returns None vm'
    /\ sp vm' = sp vm - 1
    /\ index (stack vm') (sp vm - 2) = Some (Ptr p (Integer (2 ^ 63 - 1))).
Proof.
  intros vm.
  apply (@subtract_undoes_add code0 object0 vm 2%N 3%N 3%N (2 ^ 63 - 1) 5).
  - apply (bool_decide_unpack _). vm_compute. exact I.
  - split; [reflexivity | cbn; unfold StackSize; lia].
  - reflexivity.
  - reflexivity.
  - unfold int64_range. lia.
Defined.
